(** * Activity timeline: event classification, grouping, archival, rendering policy

    A shallow embedding of the client-side activity timeline of the research
    agent front end, and the properties of its specification.

    The model comes first:

    - [Js]                JavaScript values as the code sees them;
    - [ActivityTimeline]  the timeline view ([groupedEvents], the default-expand
                          pass, [toggleSection], the payload display policy);
    - [App]               the top-level component ([onUpdateEvent], the archival
                          effect, [handleSubmit]);
    - [MindMapModal]      the mind-map fetch;
    - [TimelineScreen]    what the timeline view returns ([getSectionIcon], the
                          placeholders, the section headers and bodies);
    - [MindMapRequest]    the request body of the mind-map fetch.

    [Spec] and [Notions] hold the notions the properties are stated with and
    [Scenarios] some concrete runs; the modules after them hold the proofs:
    first the properties of the specification, then further properties of the
    code.

    JavaScript data is modelled as the code sees it: dynamically typed values
    with their truthiness, objects as property lists in enumeration order, and
    objects used as dictionaries as finite maps together with the properties
    every object literal inherits from [Object.prototype].  Arrays held in the
    state of [App] are held by reference.  Text is modelled as [string] (byte
    strings); the character operations ([toUpperCase], [trim]) act on the ASCII
    range and leave other bytes alone. *)

From Stdlib Require Import ZArith Ascii String List Sorted.
From stdpp Require Import base option list strings gmap pretty.

Set Default Proof Using "Type".
Set Warnings "-register-all".
Local Open Scope string_scope.
Local Open Scope list_scope.

(* ===================================================================== *)
(** ** JavaScript values *)
(* ===================================================================== *)

Module Js.

(** A JSON-shaped JavaScript value, plus [undefined].  An object is the list of
    its own properties in enumeration order, one binding per key.  Numbers are
    carried as integers: the code only ever tests a number for truthiness or
    prints it. *)
Inductive JsValue : Type :=
| JUndefined
| JNull
| JBool (b : bool)
| JNum (n : Z)
| JStr (s : string)
| JArr (elems : list JsValue)
| JObj (props : list (string * JsValue)).

(** [ToBoolean]: what [if (v)], [v && e], [v || e] and [!v] test. *)
Definition truthy (v : JsValue) : bool :=
  match v with
  | JUndefined | JNull => false
  | JBool b => b
  | JNum n => negb (n =? 0)%Z
  | JStr s => negb (String.eqb s "")
  | JArr _ | JObj _ => true
  end.

(** [typeof v === 'object'] (true of [null], arrays and objects). *)
Definition typeof_object (v : JsValue) : bool :=
  match v with
  | JNull | JArr _ | JObj _ => true
  | _ => false
  end.

(** [typeof v === 'string'] *)
Definition typeof_string (v : JsValue) : bool :=
  match v with
  | JStr _ => true
  | _ => false
  end.

(** [Array.isArray(v)] *)
Definition isArray (v : JsValue) : bool :=
  match v with
  | JArr _ => true
  | _ => false
  end.

(** [v === "s"] for a string literal. *)
Definition is_str (v : JsValue) (s : string) : bool :=
  match v with
  | JStr t => String.eqb t s
  | _ => false
  end.

(** Own property of a property list (first binding of the key). *)
Fixpoint own (props : list (string * JsValue)) (k : string) : option JsValue :=
  match props with
  | [] => None
  | (k', v) :: rest => if String.eqb k' k then Some v else own rest k
  end.

(** The property read [v.k], for the keys the code reads ([type], [data],
    [url], [title], [stdout], [stderr], [error], [detail], [mermaid_string]):
    none of them is defined by a built-in prototype, so the read yields the own
    property of an object and [undefined] on every other non-nullish value.
    Reading a property of [null] or [undefined] throws a [TypeError]: [None]. *)
Definition js_get (v : JsValue) (k : string) : option JsValue :=
  match v with
  | JUndefined | JNull => None
  | JObj props => Some (default JUndefined (own props k))
  | _ => Some JUndefined
  end.

(** The same read where the base is known not to be nullish. *)
Definition prop (v : JsValue) (k : string) : JsValue :=
  default JUndefined (js_get v k).

(** [a || b] *)
Definition js_or (a b : JsValue) : JsValue := if truthy a then a else b.

(** *** Text *)

(** [s.replace(/_/g, ' ')] *)
Fixpoint replace_underscores (s : string) : string :=
  match s with
  | EmptyString => EmptyString
  | String c rest =>
      String (if Ascii.eqb c "_"%char then " "%char else c) (replace_underscores rest)
  end.

(** [toUpperCase] on one character (ASCII letters). *)
Definition upper_char (c : ascii) : ascii :=
  let n := nat_of_ascii c in
  if (97 <=? n)%nat && (n <=? 122)%nat then ascii_of_nat (n - 32) else c.

(** [s.charAt(0).toUpperCase() + s.slice(1)] *)
Definition capitalize (s : string) : string :=
  match s with
  | EmptyString => EmptyString
  | String c rest => String (upper_char c) rest
  end.

(** White space removed by [trim] (ASCII range: TAB, LF, VT, FF, CR, SP). *)
Definition is_space (c : ascii) : bool :=
  let n := nat_of_ascii c in
  ((9 <=? n)%nat && (n <=? 13)%nat) || (n =? 32)%nat.

Fixpoint trim_start (s : string) : string :=
  match s with
  | EmptyString => EmptyString
  | String c rest => if is_space c then trim_start rest else s
  end.

(** Drops trailing white space: a character is kept when it is not a space or
    when something is kept after it. *)
Fixpoint trim_end (s : string) : string :=
  match s with
  | EmptyString => EmptyString
  | String c rest =>
      match trim_end rest with
      | EmptyString => if is_space c then EmptyString else String c EmptyString
      | kept => String c kept
      end
  end.

(** [s.trim()] *)
Definition trim (s : string) : string := trim_end (trim_start s).

(** *** Objects used as dictionaries

    An object literal ([{}], [{...prev, [k]: v}]) inherits from
    [Object.prototype], so a read [o[k]] of a key the object does not own finds
    the inherited member when [k] names one. *)
Definition object_prototype_names : list string :=
  [ "constructor"; "__defineGetter__"; "__defineSetter__"; "hasOwnProperty";
    "__lookupGetter__"; "__lookupSetter__"; "isPrototypeOf";
    "propertyIsEnumerable"; "toString"; "valueOf"; "__proto__";
    "toLocaleString" ].

Definition inherited (k : string) : bool :=
  existsb (String.eqb k) object_prototype_names.

(** The outcome of [o[k]] on a dictionary whose own values have type [V]. *)
Inductive Read (V : Type) : Type :=
| Own (v : V)
| Inherited
| Undefined.
Arguments Own {V} v.
Arguments Inherited {V}.
Arguments Undefined {V}.

(** *** Integer-like keys

    [Object.keys], [Object.entries] and [for-in] list the own keys that are
    array indices (canonical decimal numerals below [2^32 - 1]) first, in
    ascending numeric order, and then the other string keys in insertion
    order. *)
Definition is_digit (c : ascii) : bool :=
  let n := nat_of_ascii c in (48 <=? n)%nat && (n <=? 57)%nat.

Fixpoint all_digits (s : string) : bool :=
  match s with
  | EmptyString => true
  | String c rest => is_digit c && all_digits rest
  end.

Fixpoint digits_value (acc : N) (s : string) : N :=
  match s with
  | EmptyString => acc
  | String c rest => digits_value (acc * 10 + (N_of_ascii c - 48))%N rest
  end.

Definition array_index (k : string) : option N :=
  match k with
  | EmptyString => None
  | String c rest =>
      if all_digits k && (negb (Ascii.eqb c "0"%char) || String.eqb rest "") then
        let n := digits_value 0%N k in
        if (n <? 4294967295)%N then Some n else None
      else None
  end.

End Js.

(* ===================================================================== *)
(** ** ActivityTimeline.tsx *)
(* ===================================================================== *)

Module ActivityTimeline.
Import Js.

(** [interface ProcessedEvent].  [isSources] is optional in the interface and
    only ever tested for truthiness, so an absent flag reads as [false]. *)
Record ProcessedEvent : Type := {
  title : string;
  data : JsValue;
  sectionType : string;
  isSources : bool
}.

(** *** [groupedEvents]

    The accumulator of the [reduce] is an object literal: its own properties in
    insertion order, each holding an array of events. *)
Definition Groups : Type := list (string * list ProcessedEvent).

Fixpoint own_group (acc : Groups) (k : string) : option (list ProcessedEvent) :=
  match acc with
  | [] => None
  | (k', arr) :: rest => if String.eqb k' k then Some arr else own_group rest k
  end.

(** [acc[k]] *)
Definition read_group (acc : Groups) (k : string) : Read (list ProcessedEvent) :=
  match own_group acc k with
  | Some arr => Own arr
  | None => if inherited k then Inherited else Undefined
  end.

(** [acc[k].push(event)] on an own array. *)
Fixpoint push_group (acc : Groups) (k : string) (event : ProcessedEvent) : Groups :=
  match acc with
  | [] => []
  | (k', arr) :: rest =>
      if String.eqb k' k then (k', arr ++ [event]) :: rest
      else (k', arr) :: push_group rest k event
  end.

(** The callback of the [reduce].  An array is truthy, so [!acc[k]] holds only
    when the read is [undefined]; an inherited member is truthy and has no
    [push], so the call throws ([None]). *)
Definition group_step (acc : Groups) (event : ProcessedEvent) : option Groups :=
  let k := sectionType event in
  match read_group acc k with
  | Undefined => Some (push_group (acc ++ [(k, [])]) k event)
  | Own _ => Some (push_group acc k event)
  | Inherited => None
  end.

Fixpoint reduce (acc : Groups) (events : list ProcessedEvent) : option Groups :=
  match events with
  | [] => Some acc
  | event :: rest =>
      match group_step acc event with
      | Some acc' => reduce acc' rest
      | None => None
      end
  end.

Definition groupedEvents (processedEvents : list ProcessedEvent) : option Groups :=
  reduce [] processedEvents.

(** *** Enumeration order of the groups *)

(** Stable insertion by ascending index. *)
Fixpoint insert_index {V : Type} (n : N) (kv : string * V)
    (sorted : list (N * (string * V))) : list (N * (string * V)) :=
  match sorted with
  | [] => [(n, kv)]
  | (m, kv') :: rest =>
      if (n <? m)%N then (n, kv) :: sorted else (m, kv') :: insert_index n kv rest
  end.

Fixpoint index_entries {V : Type} (o : list (string * V)) : list (N * (string * V)) :=
  match o with
  | [] => []
  | kv :: rest =>
      match array_index (fst kv) with
      | Some n => insert_index n kv (index_entries rest)
      | None => index_entries rest
      end
  end.

Definition named_entries {V : Type} (o : list (string * V)) : list (string * V) :=
  List.filter (fun kv => match array_index (fst kv) with Some _ => false | None => true end) o.

(** [Object.entries(o)] *)
Definition Object_entries {V : Type} (o : list (string * V)) : list (string * V) :=
  List.map snd (index_entries o) ++ named_entries o.

(** [Object.keys(o)] *)
Definition Object_keys {V : Type} (o : list (string * V)) : list string :=
  List.map fst (Object_entries o).

(** *** Expand state *)

(** [expandedSections[k]] *)
Definition read_flag (expandedSections : gmap string bool) (k : string) : Read bool :=
  match expandedSections !! k with
  | Some b => Own b
  | None => if inherited k then Inherited else Undefined
  end.

(** [r === undefined] *)
Definition is_undefined {V : Type} (r : Read V) : bool :=
  match r with
  | Undefined => true
  | _ => false
  end.

(** Truthiness of a flag read: what [!prev[k]] negates and what the section
    header and body test ([expandedSections[k] ? ... : ...],
    [expandedSections[k] && ...]). *)
Definition flag_truthy (r : Read bool) : bool :=
  match r with
  | Own b => b
  | Inherited => true
  | Undefined => false
  end.

Definition isExpanded (expandedSections : gmap string bool) (k : string) : bool :=
  flag_truthy (read_flag expandedSections k).

(** The second [useMemo]: for every key of the grouped view whose flag reads
    [undefined] in the state of this render, one updater
    [prev => ({...prev, [k]: true})] is queued. *)
Definition pendingDefaults (keys : list string) (expandedSections : gmap string bool)
    : list string :=
  List.filter (fun k => is_undefined (read_flag expandedSections k)) keys.

Definition expandDefault (prev : gmap string bool) (k : string) : gmap string bool :=
  <[k := true]> prev.

(** The state after the queued updaters ran, in order. *)
Definition autoExpand (keys : list string) (expandedSections : gmap string bool)
    : gmap string bool :=
  foldl expandDefault expandedSections (pendingDefaults keys expandedSections).

(** [toggleSection]: [prev => ({...prev, [k]: !prev[k]})] *)
Definition toggleSection (k : string) (prev : gmap string bool) : gmap string bool :=
  <[k := negb (flag_truthy (read_flag prev k))]> prev.

(** *** The view: expand state and section headers on screen *)

(** The component's own state, [expandedSections], and the section headers
    (toggle buttons) of the committed render, one per key of the grouped
    view. *)
Record View : Type := {
  expanded : gmap string bool;
  shown : list string
}.

(** [useState({})], nothing rendered yet. *)
Definition initial_view : View := {| expanded := ∅; shown := [] |}.

Inductive UiAction : Type :=
| Render (processedEvents : list ProcessedEvent)
| Click (sectionType : string).

(** One render or one click, with the keys for which the render queued a
    default-expand update.  A render throws when [groupedEvents] does; a click
    needs the header of its section on screen. *)
Definition ui_step (v : View) (a : UiAction) : option (View * list string) :=
  match a with
  | Render processedEvents =>
      match groupedEvents processedEvents with
      | Some groups =>
          let keys := Object_keys groups in
          Some ({| expanded := autoExpand keys (expanded v); shown := keys |},
                pendingDefaults keys (expanded v))
      | None => None
      end
  | Click k =>
      if bool_decide (k ∈ shown v) then
        Some ({| expanded := toggleSection k (expanded v); shown := shown v |}, [])
      else None
  end.

(** A sequence of renders and clicks, with the log of default-expand updates. *)
Fixpoint ui_run (v : View) (actions : list UiAction) : option (View * list string) :=
  match actions with
  | [] => Some (v, [])
  | a :: rest =>
      match ui_step v a with
      | Some (v', log) =>
          match ui_run v' rest with
          | Some (v'', log') => Some (v'', log ++ log')
          | None => None
          end
      | None => None
      end
  end.

(** *** What the body of one entry renders *)

(** A child handed to React: a link, a labeled [<pre>] block, or the bare value
    an [a && <element>] expression yields when [a] is falsy. *)
Inductive Child : Type :=
| Link (href label : JsValue)
| Block (label : string) (text : JsValue)
| Bare (v : JsValue).

(** The four interpretations of [event.data]. *)
Inductive Rendering : Type :=
| SourceLinks (children : list Child)
| Text (s : string)
| ProcessOutput (out err error : Child)
| Structured (v : JsValue).

(** React displays nothing for [undefined], [null], booleans and the empty
    string. *)
Definition renders_nothing (c : Child) : bool :=
  match c with
  | Bare JUndefined | Bare JNull | Bare (JBool _) => true
  | Bare (JStr s) => String.eqb s ""
  | _ => false
  end.

(** The elements of an array and the text of a string, once the test on the
    data has passed. *)
Definition elements (v : JsValue) : list JsValue :=
  match v with
  | JArr l => l
  | _ => []
  end.

Definition text_of (v : JsValue) : string :=
  match v with
  | JStr s => s
  | _ => ""
  end.

(** [source.url && <a href={source.url}>{source.title || source.url}</a>];
    reading [url] of [null] or [undefined] throws. *)
Definition render_source (source : JsValue) : option Child :=
  match js_get source "url" with
  | Some url =>
      Some (if truthy url then Link url (js_or (prop source "title") url) else Bare url)
  | None => None
  end.

(** [data.field && <pre>LABEL: {data.field}</pre>] *)
Definition slot (label field : string) (d : JsValue) : Child :=
  if truthy (prop d field) then Block label (prop d field) else Bare (prop d field).

(** The conditional chain under the entry's title. *)
Definition renderData (event : ProcessedEvent) : option Rendering :=
  let d := data event in
  if isSources event && isArray d then
    SourceLinks <$> mapM render_source (elements d)
  else if typeof_string d then
    Some (Text (text_of d))
  else if truthy d && (typeof_string (prop d "stdout")
                       || typeof_string (prop d "stderr")
                       || typeof_string (prop d "error")) then
    Some (ProcessOutput (slot "STDOUT" "stdout" d)
                        (slot "STDERR" "stderr" d)
                        (slot "ERROR" "error" d))
  else
    Some (Structured d).

(** The children of a rendering that are displayed. *)
Definition displayed (r : Rendering) : list Child :=
  match r with
  | SourceLinks children => List.filter (fun c => negb (renders_nothing c)) children
  | ProcessOutput out err error =>
      List.filter (fun c => negb (renders_nothing c)) [out; err; error]
  | _ => []
  end.

End ActivityTimeline.

(* ===================================================================== *)
(** ** App: classification, archival effect, submission *)
(* ===================================================================== *)

Module App.
Import Js ActivityTimeline.

(** A chat message of the stream ([Message] of the SDK): [id] is optional. *)
Record Message : Type := {
  m_type : string;
  m_content : string;
  m_id : option string
}.

(** The argument of [thread.submit]. *)
Record RunRequest : Type := {
  r_messages : list Message;
  initial_search_query_count : Z;
  max_research_loops : Z;
  reasoning_model : string;
  effort : string
}.

(** The component's state.  Arrays are held by reference: [arrays] is the
    store of every array allocated so far (a reference is an index into it),
    [processedEventsTimeline] and the values of [historicalActivities] are
    references.  [messages] and [isLoading] are the fields of [thread] the
    component reads; [submitted] logs the calls of [thread.submit]. *)
Record State : Type := {
  arrays : list (list ProcessedEvent);
  processedEventsTimeline : nat;
  historicalActivities : gmap string nat;
  hasFinalizeEventOccurredRef : bool;
  messages : list Message;
  isLoading : bool;
  submitted : list RunRequest
}.

(** [useState([])], [useState({})], [useRef(false)]. *)
Definition initial : State := {|
  arrays := [[]];
  processedEventsTimeline := 0;
  historicalActivities := ∅;
  hasFinalizeEventOccurredRef := false;
  messages := [];
  isLoading := false;
  submitted := []
|}.

(** The contents of the array behind a reference. *)
Definition array_at (s : State) (r : nat) : list ProcessedEvent :=
  default [] (arrays s !! r).

(** The live timeline, and the archived timeline of a message id. *)
Definition live (s : State) : list ProcessedEvent :=
  array_at s (processedEventsTimeline s).

Definition archived (s : State) (m : string) : option (list ProcessedEvent) :=
  array_at s <$> historicalActivities s !! m.

(** *** [onUpdateEvent] *)

(** The body of the [for-in] loop for one node: the entry pushed, if any, and
    whether [hasFinalizeEventOccurredRef.current] is set. *)
Definition classify (nodeName : string) (nodeEvent : JsValue)
    : option (ProcessedEvent * bool) :=
  if truthy nodeEvent && typeof_object nodeEvent && truthy (prop nodeEvent "type") then
    let type := prop nodeEvent "type" in
    let default_title := capitalize (replace_underscores nodeName) in
    let '(section, title, sources, finalize) :=
      if String.eqb nodeName "generate_query" then
        ("Querying", "Generating Search Queries", false, false)
      else if String.eqb nodeName "web_research" then
        if is_str type "status" then ("Searching", "Web Research Status", false, false)
        else if is_str type "sources" then ("Searching", "Found Sources", true, false)
        else ("Searching", default_title, false, false)
      else if String.eqb nodeName "reflection" then
        if is_str type "status" then ("Planning", "Reflection Status", false, false)
        else if is_str type "plan" then ("Planning", "Reflection Plan", false, false)
        else ("Planning", default_title, false, false)
      else if String.eqb nodeName "code_execution" then
        if is_str type "status" then ("Coding", "Code Execution Status", false, false)
        else if is_str type "output" then ("Coding", "Code Execution Output", false, false)
        else ("Coding", default_title, false, false)
      else if String.eqb nodeName "finalize_answer" then
        ("Finalizing", "Finalizing Answer", false, true)
      else ("General", default_title, false, false) in
    Some ({| ActivityTimeline.title := title;
             data := prop nodeEvent "data";
             sectionType := section;
             isSources := sources |}, finalize)
  else None.

(** One iteration of the loop on [(newProcessedEvents, ref)]. *)
Definition loop_body (st : list ProcessedEvent * bool) (node : string * JsValue)
    : list ProcessedEvent * bool :=
  match classify (fst node) (snd node) with
  | Some (entry, finalize) => (fst st ++ [entry], snd st || finalize)
  | None => st
  end.

(** The loop over a tick: the event's enumerable properties in [for-in] order. *)
Definition processTick (event : list (string * JsValue)) (ref : bool)
    : list ProcessedEvent * bool :=
  foldl loop_body ([], ref) event.

Definition onUpdateEvent (event : list (string * JsValue)) (s : State) : State :=
  let '(newProcessedEvents, ref) := processTick event (hasFinalizeEventOccurredRef s) in
  if (0 <? length newProcessedEvents)%nat then
    (* setProcessedEventsTimeline(prev => [...prev, ...newProcessedEvents]) *)
    {| arrays := arrays s ++ [live s ++ newProcessedEvents];
       processedEventsTimeline := length (arrays s);
       historicalActivities := historicalActivities s;
       hasFinalizeEventOccurredRef := ref;
       messages := messages s;
       isLoading := isLoading s;
       submitted := submitted s |}
  else
    {| arrays := arrays s;
       processedEventsTimeline := processedEventsTimeline s;
       historicalActivities := historicalActivities s;
       hasFinalizeEventOccurredRef := ref;
       messages := messages s;
       isLoading := isLoading s;
       submitted := submitted s |}.

(** *** The archival effect *)

(** [lastMessage && lastMessage.type === "ai" && lastMessage.id]: the id under
    which the timeline is archived, if the test passes. *)
Definition archive_key (lastMessage : option Message) : option string :=
  match lastMessage with
  | Some m =>
      if String.eqb (m_type m) "ai" then
        match m_id m with
        | Some i => if String.eqb i "" then None else Some i
        | None => None
        end
      else None
  | None => None
  end.

(** The body of the second [useEffect]. *)
Definition archiveEffect (s : State) : State :=
  if hasFinalizeEventOccurredRef s && negb (isLoading s) && (0 <? length (messages s))%nat then
    match archive_key (last (messages s)) with
    | Some i =>
        (* setHistoricalActivities(prev => ({...prev, [id]: [...processedEventsTimeline]})) *)
        {| arrays := arrays s ++ [live s];
           processedEventsTimeline := processedEventsTimeline s;
           historicalActivities := <[i := length (arrays s)]> (historicalActivities s);
           hasFinalizeEventOccurredRef := false;
           messages := messages s;
           isLoading := isLoading s;
           submitted := submitted s |}
    | None =>
        {| arrays := arrays s;
           processedEventsTimeline := processedEventsTimeline s;
           historicalActivities := historicalActivities s;
           hasFinalizeEventOccurredRef := false;
           messages := messages s;
           isLoading := isLoading s;
           submitted := submitted s |}
    end
  else s.

(** *** [handleSubmit] *)

(** The [switch (effort)]: [(initial_search_query_count, max_research_loops)]. *)
Definition effort_budget (effort : string) : Z * Z :=
  if String.eqb effort "low" then (1, 1)%Z
  else if String.eqb effort "medium" then (3, 3)%Z
  else if String.eqb effort "high" then (5, 10)%Z
  else (0, 0)%Z.

(** [now] is the value of [Date.now()]. *)
Definition handleSubmit (submittedInputValue effort model : string) (now : N)
    (s : State) : State :=
  if String.eqb (trim submittedInputValue) "" then s
  else
    let newMessages :=
      messages s ++ [ {| m_type := "human";
                         m_content := submittedInputValue;
                         m_id := Some (pretty now) |} ] in
    {| arrays := arrays s ++ [[]];
       processedEventsTimeline := length (arrays s);
       historicalActivities := historicalActivities s;
       hasFinalizeEventOccurredRef := false;
       messages := messages s;
       isLoading := isLoading s;
       submitted := submitted s ++
         [ {| r_messages := newMessages;
              initial_search_query_count := fst (effort_budget effort);
              max_research_loops := snd (effort_budget effort);
              reasoning_model := model;
              effort := effort |} ] |}.

(** *** Runs of the component *)

Inductive Action : Type :=
| UpdateEvent (event : list (string * JsValue))
| Submit (submittedInputValue effort model : string) (now : N)
| Thread (msgs : list Message) (loading : bool)
| Effect.

Definition step (s : State) (a : Action) : State :=
  match a with
  | UpdateEvent event => onUpdateEvent event s
  | Submit text effort model now => handleSubmit text effort model now s
  | Thread msgs loading =>
      {| arrays := arrays s;
         processedEventsTimeline := processedEventsTimeline s;
         historicalActivities := historicalActivities s;
         hasFinalizeEventOccurredRef := hasFinalizeEventOccurredRef s;
         messages := msgs;
         isLoading := loading;
         submitted := submitted s |}
  | Effect => archiveEffect s
  end.

Definition run (s : State) (actions : list Action) : State := foldl step s actions.

(** Appends to the live timeline and submissions: the actions that are not a
    run of the archival effect. *)
Definition is_effect (a : Action) : bool :=
  match a with
  | Effect => true
  | _ => false
  end.

End App.

(* ===================================================================== *)
(** ** MindMapModal.tsx: the mind-map fetch *)
(* ===================================================================== *)

Module MindMapModal.
Import Js.

(** [String(v)], as a template literal converts an interpolated value.
    Numbers are the integers of the model, printed with all their digits, and
    an object prints as [[object Object]], as a plain object does. *)
Fixpoint ToString (v : JsValue) : string :=
  match v with
  | JUndefined => "undefined"
  | JNull => "null"
  | JBool true => "true"
  | JBool false => "false"
  | JNum n => pretty n
  | JStr s => s
  | JArr l =>
      String.concat ","
        (List.map (fun x => match x with
                            | JUndefined | JNull => ""
                            | _ => ToString x
                            end) l)
  | JObj _ => "[object Object]"
  end.

(** [interface ChatMessage] *)
Record ChatMessage : Type := {
  c_id : string;
  c_type : string;
  c_content : JsValue
}.

(** The component's state: [useState(false)], [useState(null)],
    [useState("")]. *)
Record ModalState : Type := {
  isLoading : bool;
  error : option string;
  rawMermaid : JsValue
}.

Definition closed : ModalState :=
  {| isLoading := false; error := None; rawMermaid := JStr "" |}.

(** A response of the server: its status, the text of its body and the body
    read as JSON ([JSON.parse(text)], [res.json()]; [None] when the text is not
    JSON). *)
Record Response : Type := {
  status : Z;
  body : string;
  json : option JsValue
}.

(** [res.ok] *)
Definition ok (res : Response) : bool :=
  (200 <=? status res)%Z && (status res <=? 299)%Z.

(** How the [fetch] promise settles: rejected with an error (its [message]),
    or resolved with a response. *)
Inductive Outcome : Type :=
| Rejected (message : string)
| Responded (res : Response).

(** A promise of the chain: resolved with a value, or rejected with an error
    of which only the [message] is read. *)
Inductive Settled (A : Type) : Type :=
| Resolved (a : A)
| Thrown (message : string).
Arguments Resolved {A} a.
Arguments Thrown {A} message.

Section Chain.

(** The messages of the engine's own errors: the [SyntaxError] of [res.json()]
    on a body that is not JSON, and the [TypeError] of reading a property of
    [null]. *)
Variable syntaxError : string.
Variable typeError : string.

(** [detail] in the branch of a response that is not ok. *)
Definition server_detail (res : Response) : string :=
  match json res with
  | Some errJson =>
      match js_get errJson "detail" with
      | Some d => if truthy d then ToString d else body res
      | None => body res
      end
  | None => body res
  end.

(** The first [then]. *)
Definition on_response (res : Response) : Settled JsValue :=
  if negb (ok res) then
    Thrown ("Server error (status " +:+ pretty (status res) +:+ "): " +:+ server_detail res)
  else
    match json res with
    | Some data => Resolved data
    | None => Thrown syntaxError
    end.

(** The second [then]. *)
Definition on_data (data : JsValue) (st : ModalState) : Settled unit * ModalState :=
  match js_get data "mermaid_string" with
  | Some m =>
      if truthy m then
        (Resolved tt, {| isLoading := isLoading st; error := error st; rawMermaid := m |})
      else
        (Thrown "Received no mermaid_string or empty data in response.",
         {| isLoading := isLoading st; error := error st; rawMermaid := JStr "" |})
  | None => (Thrown typeError, st)
  end.

(** The [catch]: [setError(err.message || "Could not load mind map data.")]. *)
Definition on_error (message : string) (st : ModalState) : ModalState :=
  {| isLoading := isLoading st;
     error := Some (if String.eqb message "" then "Could not load mind map data."
                    else message);
     rawMermaid := JStr "" |}.

(** The [finally]. *)
Definition on_settled (st : ModalState) : ModalState :=
  {| isLoading := false; error := error st; rawMermaid := rawMermaid st |}.

(** The state once the chain has run on the settled [fetch]. *)
Definition fetchMindMap (outcome : Outcome) (st : ModalState) : ModalState :=
  let started := {| isLoading := true; error := None; rawMermaid := JStr "" |} in
  let first :=
    match outcome with
    | Rejected message => Thrown message
    | Responded res => on_response res
    end in
  let '(second, st1) :=
    match first with
    | Resolved data => on_data data started
    | Thrown message => (Thrown message, started)
    end in
  let st2 :=
    match second with
    | Resolved _ => st1
    | Thrown message => on_error message st1
    end in
  on_settled st2.

(** The effect: the fetch is issued when the modal is open and the chat
    history is not empty. *)
Definition mindMapEffect (isOpen : bool) (chatHistory : list ChatMessage)
    (outcome : Outcome) (st : ModalState) : ModalState :=
  if isOpen && (0 <? length chatHistory)%nat then fetchMindMap outcome st else st.

(** The page: the timeline engine (the state of [App] and of the timeline
    view) next to the modal.  The effect of the modal writes the modal's state
    only. *)
Record Page : Type := {
  app : App.State;
  timeline : ActivityTimeline.View;
  modal : ModalState
}.

Definition page_fetch (isOpen : bool) (chatHistory : list ChatMessage)
    (outcome : Outcome) (p : Page) : Page :=
  {| app := app p;
     timeline := timeline p;
     modal := mindMapEffect isOpen chatHistory outcome (modal p) |}.

End Chain.

End MindMapModal.

(* ===================================================================== *)
(** ** ActivityTimeline.tsx: the rendered timeline *)
(* ===================================================================== *)

Module TimelineScreen.
Import Js ActivityTimeline.

(** [toLowerCase] on the ASCII letters.  No other ASCII character changes, and
    the one character outside the ASCII range that lower-cases into it gives
    [k], a letter that no case of [getSectionIcon] holds. *)
Definition lower_char (c : ascii) : ascii :=
  let n := nat_of_ascii c in
  if (65 <=? n)%nat && (n <=? 90)%nat then ascii_of_nat (n + 32) else c.

Fixpoint toLowerCase (s : string) : string :=
  match s with
  | EmptyString => EmptyString
  | String c rest => String (lower_char c) (toLowerCase rest)
  end.

(** The icons of the section headers. *)
Inductive Icon : Type :=
| TextSearch
| Search
| Brain
| Code2
| Pen
| Activity.

(** [getSectionIcon]: the [switch] on the lower-cased section. *)
Definition getSectionIcon (sectionType : string) : Icon :=
  let lowered := toLowerCase sectionType in
  if String.eqb lowered "querying" then TextSearch
  else if String.eqb lowered "searching" then Search
  else if String.eqb lowered "planning" then Brain
  else if String.eqb lowered "coding" then Code2
  else if String.eqb lowered "finalizing" then Pen
  else Activity.

(** One entry of an expanded section: its title and the rendering of its
    data. *)
Record EntryView : Type := {
  entry_title : string;
  entry_data : Rendering
}.

(** One section: the header button (icon, [{sectionType} ({events.length})],
    chevron up when the flag is truthy) and, when the flag is truthy, the
    entries; [None] when the body is not rendered. *)
Record SectionView : Type := {
  icon : Icon;
  name : string;
  count : nat;
  chevron_up : bool;
  body : option (list EntryView)
}.

(** What the component returns: one of the two placeholders, or the sections
    with the [Agent is thinking...] line when loading. *)
Inductive Screen : Type :=
| Processing
| NoActivity
| Timeline (sections : list SectionView) (thinking : bool).

Definition renderEntry (event : ProcessedEvent) : option EntryView :=
  match renderData event with
  | Some rendering => Some {| entry_title := title event; entry_data := rendering |}
  | None => None
  end.

(** The callback of [Object.entries(groupedEvents).map]. *)
Definition renderSection (expandedSections : gmap string bool)
    (group : string * list ProcessedEvent) : option SectionView :=
  let sectionType := fst group in
  let events := snd group in
  if isExpanded expandedSections sectionType then
    match mapM renderEntry events with
    | Some entries =>
        Some {| icon := getSectionIcon sectionType;
                name := sectionType;
                count := length events;
                chevron_up := true;
                body := Some entries |}
    | None => None
    end
  else
    Some {| icon := getSectionIcon sectionType;
            name := sectionType;
            count := length events;
            chevron_up := false;
            body := None |}.

(** The body of the component after its hooks, for the expand state of the
    render: the elements it returns, [None] when [groupedEvents] or the body of
    an entry throws.  What React makes of the elements returned is not part
    of the model. *)
Definition renderTimeline (processedEvents : list ProcessedEvent) (loading : bool)
    (expandedSections : gmap string bool) : option Screen :=
  match groupedEvents processedEvents with
  | Some groups =>
      if loading && (length processedEvents =? 0)%nat then Some Processing
      else if negb loading && (length processedEvents =? 0)%nat then Some NoActivity
      else
        match mapM (renderSection expandedSections) (Object_entries groups) with
        | Some sections => Some (Timeline sections loading)
        | None => None
        end
  | None => None
  end.

End TimelineScreen.

(* ===================================================================== *)
(** ** MindMapModal.tsx: the request body *)
(* ===================================================================== *)

Module MindMapRequest.
Import Js MindMapModal.

(** One element of [historyPayload]. *)
Record HistoryItem : Type := {
  h_type : string;
  h_content : string
}.

Section Payload.

(** [JSON.stringify] on a value that is not a string: its text, or [None] when
    it gives none (it returns [undefined], on which [substring] throws, or
    throws itself). *)
Variable stringify : JsValue → option string.

(** The callback of [chatHistory.map]: a string content is cut to its first
    300 characters, any other content is stringified and cut; [None] when it
    throws. *)
Definition payload_item (msg : ChatMessage) : option HistoryItem :=
  if typeof_string (c_content msg) then
    Some {| h_type := c_type msg;
            h_content := substring 0 300 (ActivityTimeline.text_of (c_content msg)) |}
  else
    match stringify (c_content msg) with
    | Some text => Some {| h_type := c_type msg; h_content := substring 0 300 text |}
    | None => None
    end.

Definition historyPayload (chatHistory : list ChatMessage) : option (list HistoryItem) :=
  mapM payload_item chatHistory.

End Payload.

End MindMapRequest.

(* ===================================================================== *)
(** ** Notions the properties are stated with *)
(* ===================================================================== *)

Module Spec.
Import Js ActivityTimeline App.

(** *** Classification *)

(** The entries a tick contributes (the final [newProcessedEvents]). *)
Definition entries (event : list (string * JsValue)) : list ProcessedEvent :=
  fst (processTick event false).

(** The [type] field of a payload that is an object. *)
Definition payload_type (nodeEvent : JsValue) : option JsValue :=
  match nodeEvent with
  | JObj props => own props "type"
  | _ => None
  end.

(** The node names the classifier knows. *)
Definition known_nodes : list string :=
  ["generate_query"; "web_research"; "reflection"; "code_execution"; "finalize_answer"].

(** Node name humanized: underscores to spaces, first letter capitalized. *)
Definition humanized (nodeName : string) : string :=
  capitalize (replace_underscores nodeName).

(** The classification table: node name, payload type, section, title,
    [isSources], and whether the run-completion signal is raised.  A recognized
    node with another payload type keeps the node's section and the default
    title. *)
Inductive row : string → JsValue → string → string → bool → bool → Prop :=
| row_query ty :
    row "generate_query" ty "Querying" "Generating Search Queries" false false
| row_research_status :
    row "web_research" (JStr "status") "Searching" "Web Research Status" false false
| row_research_sources :
    row "web_research" (JStr "sources") "Searching" "Found Sources" true false
| row_research_other ty :
    ty ≠ JStr "status" → ty ≠ JStr "sources" →
    row "web_research" ty "Searching" (humanized "web_research") false false
| row_reflection_status :
    row "reflection" (JStr "status") "Planning" "Reflection Status" false false
| row_reflection_plan :
    row "reflection" (JStr "plan") "Planning" "Reflection Plan" false false
| row_reflection_other ty :
    ty ≠ JStr "status" → ty ≠ JStr "plan" →
    row "reflection" ty "Planning" (humanized "reflection") false false
| row_code_status :
    row "code_execution" (JStr "status") "Coding" "Code Execution Status" false false
| row_code_output :
    row "code_execution" (JStr "output") "Coding" "Code Execution Output" false false
| row_code_other ty :
    ty ≠ JStr "status" → ty ≠ JStr "output" →
    row "code_execution" ty "Coding" (humanized "code_execution") false false
| row_finalize ty :
    row "finalize_answer" ty "Finalizing" "Finalizing Answer" false true
| row_general nodeName ty :
    nodeName ∉ known_nodes →
    row nodeName ty "General" (humanized nodeName) false false.

(** *** Grouping *)

(** The sections the classifier assigns. *)
Definition categories : list string :=
  ["Querying"; "Searching"; "Planning"; "Coding"; "Finalizing"; "General"].

(** The distinct members of a list in the order of their first occurrence. *)
Fixpoint first_seen (l : list string) : list string :=
  match l with
  | [] => []
  | k :: rest => k :: filter (λ k', k' ≠ k) (first_seen rest)
  end.

(** The sub-sequence of the events of one section. *)
Definition section (k : string) (events : list ProcessedEvent) : list ProcessedEvent :=
  filter (λ e, sectionType e = k) events.

(** A key that is enumerated in insertion order and read as an own property. *)
Definition plain (k : string) : Prop := array_index k = None ∧ inherited k = false.

(** The grouped view as the claim describes it: one group per section in order
    of first occurrence, each holding the events of its section in timeline
    order. *)
Definition grouping (events : list ProcessedEvent) : Groups :=
  (λ k, (k, section k events)) <$> first_seen (sectionType <$> events).

(** The own keys of an accumulator are distinct and none is named like an
    inherited member. *)
Definition own_keys_ok (acc : Groups) : Prop :=
  NoDup acc.*1 ∧ Forall (λ k, inherited k = false) acc.*1.

(** *** Runs *)

(** Changes of the message list and runs of the effect. *)
Definition is_thread_or_effect (a : Action) : bool :=
  match a with
  | Thread _ _ | Effect => true
  | _ => false
  end.

(** Every header on screen has its flag stored, and every default-expand
    update in the log was for a key that is stored now. *)
Definition view_ok (v : View) (log : list string) : Prop :=
  Forall (λ k, is_Some (expanded v !! k)) (shown v) ∧
  Forall (λ k, is_Some (expanded v !! k)) log ∧
  NoDup log.

(** *** Display *)

(** [null] or [undefined]. *)
Definition nullish (v : JsValue) : bool :=
  match v with
  | JUndefined | JNull => true
  | _ => false
  end.

(** How one element of a source list is shown: a link under its [url],
    labeled by its [title] when that is truthy and by the [url] otherwise, or,
    when the [url] is falsy, the bare value, which displays nothing when the
    [url] is absent or empty. *)
Definition shown_as (source : JsValue) (child : Child) : Prop :=
  (truthy (prop source "url") = true ∧ truthy (prop source "title") = true ∧
   child = Link (prop source "url") (prop source "title")) ∨
  (truthy (prop source "url") = true ∧ truthy (prop source "title") = false ∧
   child = Link (prop source "url") (prop source "url")) ∨
  (truthy (prop source "url") = false ∧ child = Bare (prop source "url") ∧
   (prop source "url" = JUndefined ∨ prop source "url" = JStr "" →
    renders_nothing child = true)).

(** The slot of one output field: a block under its label when the value is
    truthy, nothing displayed when the field is absent or empty. *)
Definition field_slot (label : string) (v : JsValue) (child : Child) : Prop :=
  (truthy v = true ∧ child = Block label v) ∨
  (truthy v = false ∧ child = Bare v ∧
   (v = JUndefined ∨ v = JStr "" → renders_nothing child = true)).

(** Some of [stdout], [stderr], [error] is a text field of [d]. *)
Definition has_text_output (d : JsValue) : bool :=
  typeof_string (prop d "stdout") || typeof_string (prop d "stderr")
  || typeof_string (prop d "error").



End Spec.

(* ===================================================================== *)
(** ** Sample runs and entries *)
(* ===================================================================== *)

Module Scenarios.
Import Js ActivityTimeline App.

(** A run that ends with the finalize tick seen, the run stopped, and the
    assistant message ["42"] last in the message list. *)
Definition finalized_run : list Action :=
  [ Submit "why is the sky blue" "low" "model" 1%N;
    UpdateEvent [("generate_query", JObj [("type", JStr "status"); ("data", JStr "q")])];
    UpdateEvent [("finalize_answer", JObj [("type", JStr "status"); ("data", JStr "a")])];
    Thread [ {| m_type := "human"; m_content := "why is the sky blue"; m_id := Some "1" |};
             {| m_type := "ai"; m_content := "scattering"; m_id := Some "42" |} ] false ].

(** What follows the archive: a tick, a new submission, a tick of the new
    run. *)
Definition later_ticks : list Action :=
  [ UpdateEvent [("reflection", JObj [("type", JStr "plan"); ("data", JStr "p")])];
    Submit "and the sea" "high" "model" 2%N;
    UpdateEvent [("web_research", JObj [("type", JStr "status"); ("data", JStr "w")])] ].

(** A run in which the finalize tick was seen and the run stopped while the
    last message is the user's. *)
Definition stalled_run : list Action :=
  [ Submit "why is the sky blue" "low" "model" 1%N;
    UpdateEvent [("finalize_answer", JObj [("type", JStr "status"); ("data", JStr "a")])];
    Thread [ {| m_type := "human"; m_content := "why is the sky blue"; m_id := Some "1" |} ]
           false ].

(** An entry of a given section. *)
Definition sample_event (section : string) : ProcessedEvent :=
  {| title := section; data := JStr "x"; sectionType := section; isSources := false |}.

(** A first render of two sections, a click that collapses one of them, and a
    render of a longer timeline; and the view they lead to. *)
Definition sample_session : list UiAction :=
  [ Render [sample_event "Querying"; sample_event "Searching"];
    Click "Querying";
    Render [sample_event "Querying"; sample_event "Searching"; sample_event "Querying"] ].

Definition sample_view : View :=
  {| expanded := {["Querying" := false; "Searching" := true]};
     shown := ["Querying"; "Searching"] |}.

(** A source list: a titled link, an element without address, an untitled
    link. *)
Definition sources_entry : ProcessedEvent :=
  {| title := "Found Sources";
     data := JArr [ JObj [("url", JStr "https://x"); ("title", JStr "X")];
                    JObj [("title", JStr "no address")];
                    JObj [("url", JStr "https://y")] ];
     sectionType := "Searching";
     isSources := true |}.

(** The double quote. *)
Definition quote : string := String "034"%char EmptyString.

(** A server error whose body is JSON with an empty [detail]. *)
Definition empty_detail : MindMapModal.Response :=
  {| MindMapModal.status := 500;
     MindMapModal.body := "{" +:+ quote +:+ "detail" +:+ quote +:+ ":" +:+ quote +:+ quote +:+ "}";
     MindMapModal.json := Some (JObj [("detail", JStr "")]) |}.

(** A server error whose body is JSON with a [detail]. *)
Definition not_found : MindMapModal.Response :=
  {| MindMapModal.status := 404;
     MindMapModal.body := "{" +:+ quote +:+ "detail" +:+ quote +:+ ":" +:+ quote +:+ "Not Found"
             +:+ quote +:+ "}";
     MindMapModal.json := Some (JObj [("detail", JStr "Not Found")]) |}.

Definition some_history : list MindMapModal.ChatMessage :=
  [ {| MindMapModal.c_id := "1"; MindMapModal.c_type := "human";
       MindMapModal.c_content := JStr "why is the sky blue" |} ].

(** What follows the archive of ["42"], with the effect run after every
    change: a tick, a new submission, the new run with its finalize tick, and
    its end with the assistant message ["43"] last. *)
Definition later_run : list Action :=
  [ UpdateEvent [("reflection", JObj [("type", JStr "plan"); ("data", JStr "p")])];
    Effect;
    Submit "and the sea" "high" "model" 2%N;
    Effect;
    Thread [ {| m_type := "human"; m_content := "why is the sky blue"; m_id := Some "1" |};
             {| m_type := "ai"; m_content := "scattering"; m_id := Some "42" |};
             {| m_type := "human"; m_content := "and the sea"; m_id := Some "2" |} ] true;
    Effect;
    UpdateEvent [("web_research", JObj [("type", JStr "status"); ("data", JStr "w")])];
    Effect;
    UpdateEvent [("finalize_answer", JObj [("type", JStr "status"); ("data", JStr "b")])];
    Effect;
    Thread [ {| m_type := "human"; m_content := "why is the sky blue"; m_id := Some "1" |};
             {| m_type := "ai"; m_content := "scattering"; m_id := Some "42" |};
             {| m_type := "human"; m_content := "and the sea"; m_id := Some "2" |};
             {| m_type := "ai"; m_content := "reflection"; m_id := Some "43" |} ] false;
    Effect ].

(** What follows the archive of ["42"] when the message list stays as it is:
    a new submission and the ticks of its run up to the finalize tick, with
    the effect run after every change. *)
Definition overwriting_run : list Action :=
  [ Submit "and the sea" "high" "model" 2%N;
    Effect;
    UpdateEvent [("web_research", JObj [("type", JStr "status"); ("data", JStr "w")])];
    Effect;
    UpdateEvent [("finalize_answer", JObj [("type", JStr "status"); ("data", JStr "b")])];
    Effect ].

Definition some_page : MindMapModal.Page :=
  {| MindMapModal.app := App.initial;
     MindMapModal.timeline := initial_view;
     MindMapModal.modal := MindMapModal.closed |}.

End Scenarios.

(* ===================================================================== *)
(** ** Notions of the further properties *)
(* ===================================================================== *)

Module Notions.
Import Js ActivityTimeline App Spec.

(** A payload that passes the guard of the loop: an object with a truthy
    [type]. *)
Definition typed (nodeEvent : JsValue) : bool :=
  match payload_type nodeEvent with
  | Some ty => truthy ty
  | None => false
  end.

(** A node of a tick that raises the run-completion flag. *)
Definition finalizes (node : string * JsValue) : bool :=
  String.eqb (fst node) "finalize_answer" && typed (snd node).

(** An action that cannot raise the run-completion flag. *)
Definition no_finalize (a : Action) : bool :=
  match a with
  | UpdateEvent event => negb (existsb finalizes event)
  | _ => true
  end.

(** A submission that passes the guard of [handleSubmit]. *)
Definition dispatches (a : Action) : bool :=
  match a with
  | Submit text _ _ _ => negb (String.eqb (trim text) "")
  | _ => false
  end.

(** An entry of the [Finalizing] section. *)
Definition finalizing (e : ProcessedEvent) : Prop :=
  sectionType e = "Finalizing" ∧ title e = "Finalizing Answer".

(** What holds of every state the component reaches: the live timeline is an
    allocated array; while the flag is set the live timeline holds a
    finalizing entry; every archive is an allocated array that holds one. *)
Definition reached (s : State) : Prop :=
  processedEventsTimeline s < length (arrays s) ∧
  (hasFinalizeEventOccurredRef s = true → ∃ e, e ∈ live s ∧ finalizing e) ∧
  (∀ m r, historicalActivities s !! m = Some r →
          r < length (arrays s) ∧ ∃ e, e ∈ array_at s r ∧ finalizing e).

(** A request as [handleSubmit] builds it: the last message is the user's,
    with text that is not blank, and the budget is the one of the effort,
    never above five queries and ten loops. *)
Definition well_formed_request (r : RunRequest) : Prop :=
  (∃ m, last (r_messages r) = Some m ∧ m_type m = "human" ∧ trim (m_content m) ≠ "") ∧
  (initial_search_query_count r, max_research_loops r) = effort_budget (effort r) ∧
  (0 ≤ initial_search_query_count r ≤ max_research_loops r)%Z ∧
  (max_research_loops r ≤ 10)%Z ∧
  (effort r ∉ ["low"; "medium"; "high"] →
   initial_search_query_count r = 0%Z ∧ max_research_loops r = 0%Z).

(** Text made of ASCII characters: on such text the character operations of
    the model are those of JavaScript. *)
Definition is_ascii (c : ascii) : bool := (nat_of_ascii c <? 128)%nat.

Definition ascii_text (s : string) : bool :=
  forallb is_ascii (list_ascii_of_string s).

(** The number of clicks on the header of a section. *)
Fixpoint clicks (k : string) (actions : list UiAction) : nat :=
  match actions with
  | [] => 0
  | Click c :: rest => if String.eqb c k then S (clicks k rest) else clicks k rest
  | Render _ :: rest => clicks k rest
  end.

End Notions.

(* ===================================================================== *)
(** ** The event classifier *)
(* ===================================================================== *)

Module Classifier.
Import Js ActivityTimeline App Spec.

(** *** The loop over a tick *)

(** One iteration extends the entries and the flag it is given by what it
    contributes on its own. *)
Lemma loop_body_split (st : list ProcessedEvent * bool) (node : string * JsValue) :
  loop_body st node
  = (fst st ++ fst (loop_body ([], false) node),
     snd st || snd (loop_body ([], false) node)).
Proof.
  unfold loop_body. destruct st as [acc ref].
  destruct (classify (fst node) (snd node)) as [[entry finalize]|]; simpl; [done|].
  by rewrite app_nil_r, orb_false_r.
Qed.

Lemma foldl_loop_body (event : list (string * JsValue)) (acc : list ProcessedEvent)
    (ref : bool) :
  foldl loop_body (acc, ref) event
  = (acc ++ entries event, ref || snd (processTick event false)).
Proof.
  unfold entries, processTick.
  revert acc ref. induction event as [|node event IH]; intros acc ref; cbn [foldl].
  - by rewrite app_nil_r, orb_false_r.
  - rewrite (loop_body_split (acc, ref)), IH.
    destruct (loop_body ([], false) node) as [new finalize].
    rewrite (IH new finalize). cbn [fst snd]. by rewrite app_assoc, orb_assoc.
Qed.

Lemma processTick_split (event : list (string * JsValue)) (ref : bool) :
  processTick event ref = (entries event, ref || snd (processTick event false)).
Proof. unfold processTick at 1. by rewrite foldl_loop_body. Qed.

Lemma processTick_cons (node : string * JsValue) (event : list (string * JsValue))
    (ref : bool) :
  processTick (node :: event) ref
  = match classify (fst node) (snd node) with
    | Some (entry, finalize) =>
        (entry :: entries event, ref || finalize || snd (processTick event false))
    | None => processTick event ref
    end.
Proof.
  unfold processTick at 1. cbn [foldl]. unfold loop_body at 2.
  destruct (classify (fst node) (snd node)) as [[entry finalize]|]; cbn [fst snd].
  - by rewrite foldl_loop_body.
  - done.
Qed.

Lemma processTick_app (pre post : list (string * JsValue)) (ref : bool) :
  processTick (pre ++ post) ref
  = (entries pre ++ entries post,
     ref || snd (processTick pre false) || snd (processTick post false)).
Proof.
  unfold processTick at 1. rewrite foldl_app.
  fold (processTick pre ref). rewrite processTick_split.
  by rewrite foldl_loop_body.
Qed.

(** A tick appends its entries to the live timeline and may set the flag. *)
Lemma live_onUpdateEvent (event : list (string * JsValue)) (s : State) :
  live (onUpdateEvent event s) = live s ++ entries event.
Proof.
  unfold onUpdateEvent. rewrite processTick_split.
  destruct (entries event) as [|e new] eqn:E; simpl.
  - by rewrite app_nil_r.
  - unfold live at 1, array_at; simpl.
    by rewrite list_lookup_middle.
Qed.

Lemma ref_onUpdateEvent (event : list (string * JsValue)) (s : State) :
  hasFinalizeEventOccurredRef (onUpdateEvent event s)
  = hasFinalizeEventOccurredRef s || snd (processTick event false).
Proof.
  unfold onUpdateEvent. rewrite processTick_split.
  by destruct (0 <? length (entries event))%nat.
Qed.

(** *** One payload *)

Lemma is_str_true (v : JsValue) (s : string) : is_str v s = true → v = JStr s.
Proof.
  destruct v; simpl; try discriminate.
  intros H. apply String.eqb_eq in H. by subst.
Qed.

Lemma is_str_false (v : JsValue) (s : string) : is_str v s = false → v ≠ JStr s.
Proof.
  intros H ->. simpl in H. by rewrite String.eqb_refl in H.
Qed.

(** The entry is the one computed; what is left is its row of the table. *)
Ltac entry_computed :=
  eexists _, _; split; [reflexivity|]; split; [done|];
  cbn [sectionType title isSources].

(** Settles the comparisons of the payload type with the literals of a node. *)
Ltac type_compared :=
  repeat match goal with
         | E : is_str _ _ = true |- _ => apply is_str_true in E as ->
         | E : is_str _ _ = false |- _ => apply is_str_false in E
         end.

Lemma classify_accepts (nodeName : string) (nodeEvent ty : JsValue) :
  payload_type nodeEvent = Some ty → truthy ty = true →
  ∃ entry raised,
    classify nodeName nodeEvent = Some (entry, raised) ∧
    data entry = prop nodeEvent "data" ∧
    row nodeName ty (sectionType entry) (title entry) (isSources entry) raised.
Proof.
  intros Hty Htruthy.
  destruct nodeEvent as [| | | | |elems|props]; try discriminate. simpl in Hty.
  assert (Hp : prop (JObj props) "type" = ty) by (unfold prop; simpl; by rewrite Hty).
  unfold classify. cbv zeta. rewrite Hp, Htruthy. cbn [truthy typeof_object andb].
  destruct (String.eqb_spec nodeName "generate_query") as [->|N1].
  { entry_computed. constructor. }
  destruct (String.eqb_spec nodeName "web_research") as [->|N2].
  { destruct (is_str ty "status") eqn:E1; [|destruct (is_str ty "sources") eqn:E2];
      entry_computed; type_compared; by constructor. }
  destruct (String.eqb_spec nodeName "reflection") as [->|N3].
  { destruct (is_str ty "status") eqn:E1; [|destruct (is_str ty "plan") eqn:E2];
      entry_computed; type_compared; by constructor. }
  destruct (String.eqb_spec nodeName "code_execution") as [->|N4].
  { destruct (is_str ty "status") eqn:E1; [|destruct (is_str ty "output") eqn:E2];
      entry_computed; type_compared; by constructor. }
  destruct (String.eqb_spec nodeName "finalize_answer") as [->|N5].
  { entry_computed. constructor. }
  entry_computed.
  apply row_general. unfold known_nodes. rewrite !elem_of_cons, elem_of_nil. tauto.
Qed.

Lemma classify_rejects (nodeName : string) (nodeEvent : JsValue) :
  payload_type nodeEvent = None ∨
    (∃ ty, payload_type nodeEvent = Some ty ∧ truthy ty = false) →
  classify nodeName nodeEvent = None.
Proof.
  intros H. unfold classify.
  destruct (truthy nodeEvent && typeof_object nodeEvent
            && truthy (prop nodeEvent "type")) eqn:E; [exfalso|done].
  apply andb_prop in E as [E E3]. apply andb_prop in E as [E1 E2].
  destruct nodeEvent as [| | | | |elems|props]; try discriminate.
  unfold prop in E3. simpl in *.
  destruct H as [H|(ty & H & Hf)]; rewrite H in E3; simpl in E3; congruence.
Qed.

(** The table has one row for each node name and payload type. *)
Lemma row_functional (nodeName : string) (ty : JsValue)
    (section1 title1 section2 title2 : string) (sources1 raised1 sources2 raised2 : bool) :
  row nodeName ty section1 title1 sources1 raised1 →
  row nodeName ty section2 title2 sources2 raised2 →
  section1 = section2 ∧ title1 = title2 ∧ sources1 = sources2 ∧ raised1 = raised2.
Proof.
  assert (Hknown : ∀ n, n ∈ known_nodes → n ∉ known_nodes → False) by auto.
  intros H1 H2.
  destruct H1; inversion H2; subst; try done;
    exfalso; eapply Hknown; try eassumption;
    unfold known_nodes; rewrite !elem_of_cons; tauto.
Qed.

(** The humanized title of an unrecognized node. *)
Example humanized_custom_node : humanized "my_custom_node" = "My custom node".
Proof. reflexivity. Qed.

Lemma replace_underscores_spaces (s : string) :
  list_ascii_of_string (replace_underscores s)
  = (λ c, if Ascii.eqb c "_" then " "%char else c) <$> list_ascii_of_string s.
Proof. induction s as [|c s IH]; simpl; [done|]. by rewrite IH. Qed.

(** Scenario A: a [generate_query] tick of type [status]. *)
Example query_tick :
  entries [("generate_query", JObj [("type", JStr "status"); ("data", JStr "...")])]
  = [ {| title := "Generating Search Queries";
         data := JStr "...";
         sectionType := "Querying";
         isSources := false |} ].
Proof. reflexivity. Qed.

(** C1 (amended).  A payload that is an object whose [type] is truthy (for
    text: non-empty) contributes exactly one entry to the live timeline, at its
    place in the tick, with the section, title and [isSources] of the
    classification table and the payload's [data]; a [finalize_answer] payload
    also sets the run-completion flag; a node name outside the table gives a
    [General] entry titled by the humanized name.  A payload without [type],
    or whose [type] is falsy, contributes nothing. *)
Theorem classifier_one_entry_per_typed_payload (nodeName : string) (nodeEvent : JsValue) :
  (payload_type nodeEvent = None ∨
     (∃ ty, payload_type nodeEvent = Some ty ∧ truthy ty = false) →
   ∀ pre post s,
     live (onUpdateEvent (pre ++ (nodeName, nodeEvent) :: post) s)
     = live s ++ entries pre ++ entries post) ∧
  (∀ ty, payload_type nodeEvent = Some ty → truthy ty = true →
   ∃ entry raised,
     row nodeName ty (sectionType entry) (title entry) (isSources entry) raised ∧
     data entry = prop nodeEvent "data" ∧
     ∀ pre post s,
       live (onUpdateEvent (pre ++ (nodeName, nodeEvent) :: post) s)
       = live s ++ entries pre ++ [entry] ++ entries post ∧
       (raised = true →
        hasFinalizeEventOccurredRef
          (onUpdateEvent (pre ++ (nodeName, nodeEvent) :: post) s) = true)).
Proof.
  split.
  - intros Hno pre post s.
    rewrite live_onUpdateEvent. f_equal.
    unfold entries at 1. rewrite processTick_app. cbn [fst]. f_equal.
    unfold entries at 1. rewrite processTick_cons. cbn [fst snd].
    by rewrite (classify_rejects nodeName nodeEvent Hno), processTick_split.
  - intros ty Hty Htruthy.
    destruct (classify_accepts nodeName nodeEvent ty Hty Htruthy)
      as (entry & raised & Hc & Hdata & Hrow).
    exists entry, raised. split; [done|]. split; [done|].
    intros pre post s. split.
    + rewrite live_onUpdateEvent. f_equal.
      unfold entries at 1. rewrite processTick_app. cbn [fst]. f_equal.
      unfold entries at 1. rewrite processTick_cons. cbn [fst snd].
      by rewrite Hc.
    + intros ->. rewrite ref_onUpdateEvent, processTick_app. cbn [snd].
      rewrite (processTick_cons (nodeName, nodeEvent)). cbn [fst snd].
      rewrite Hc. cbn [snd]. by rewrite !orb_true_r.
Qed.

(** The table at a concrete tick: a [web_research] payload of type [sources]. *)
Lemma classifier_sources_witness :
  ∃ entry raised,
    row "web_research" (JStr "sources")
        (sectionType entry) (title entry) (isSources entry) raised ∧
    data entry = JArr [] ∧
    ∀ pre post s,
      live (onUpdateEvent
              (pre ++ ("web_research",
                       JObj [("type", JStr "sources"); ("data", JArr [])]) :: post) s)
      = live s ++ entries pre ++ [entry] ++ entries post ∧
      (raised = true →
       hasFinalizeEventOccurredRef
         (onUpdateEvent
            (pre ++ ("web_research",
                     JObj [("type", JStr "sources"); ("data", JArr [])]) :: post) s)
       = true).
Proof.
  exact (proj2 (classifier_one_entry_per_typed_payload "web_research"
                  (JObj [("type", JStr "sources"); ("data", JArr [])]))
               (JStr "sources") eq_refl eq_refl).
Defined.

(** C1 as stated fails: a payload carrying a [type] field whose value is the
    empty string, under an unrecognized node name, yields no entry. *)
Lemma classifier_drops_empty_type :
  ¬ (∀ nodeName nodeEvent ty,
       payload_type nodeEvent = Some ty →
       ∃ entry, entries [(nodeName, nodeEvent)] = [entry]).
Proof.
  intros H.
  destruct (H "custom_node" (JObj [("type", JStr ""); ("data", JStr "x")])
              (JStr "") eq_refl) as [entry He].
  vm_compute in He. discriminate He.
Qed.

End Classifier.

(* ===================================================================== *)
(** ** The grouped view *)
(* ===================================================================== *)

Module Grouping.
Import Js ActivityTimeline App Spec Classifier.

(** *** Enumeration order *)

Lemma index_entries_plain {V : Type} (o : list (string * V)) :
  Forall (fun kv => array_index (fst kv) = None) o → index_entries o = [].
Proof.
  induction 1 as [|kv o Hkv _ IH]; simpl; [done|]. by rewrite Hkv.
Qed.

Lemma named_entries_plain {V : Type} (o : list (string * V)) :
  Forall (fun kv => array_index (fst kv) = None) o → named_entries o = o.
Proof.
  unfold named_entries.
  induction 1 as [|kv o Hkv _ IH]; simpl; [done|]. rewrite Hkv. by f_equal.
Qed.

Lemma Object_entries_plain {V : Type} (o : list (string * V)) :
  Forall (fun kv => array_index (fst kv) = None) o → Object_entries o = o.
Proof.
  intros H. unfold Object_entries.
  by rewrite index_entries_plain, named_entries_plain.
Qed.

(** *** First occurrences *)

Lemma elem_of_first_seen (l : list string) (k : string) : k ∈ first_seen l ↔ k ∈ l.
Proof.
  induction l as [|x l IH]; simpl; [done|].
  rewrite !elem_of_cons, list_elem_of_filter, IH.
  destruct (decide (k = x)); tauto.
Qed.

Lemma NoDup_first_seen (l : list string) : NoDup (first_seen l).
Proof.
  induction l as [|x l IH]; simpl; [constructor|].
  constructor.
  - rewrite list_elem_of_filter. tauto.
  - by apply NoDup_filter.
Qed.

Lemma first_seen_snoc (l : list string) (k : string) :
  first_seen (l ++ [k]) = if decide (k ∈ l) then first_seen l else first_seen l ++ [k].
Proof.
  induction l as [|x l IH]; cbn [first_seen app].
  - by rewrite decide_False by apply not_elem_of_nil.
  - rewrite IH. destruct (decide (k ∈ l)) as [Hin|Hout].
    + by rewrite decide_True by (by right).
    + rewrite filter_app, filter_singleton by exact [].
      destruct (decide (k ≠ x)) as [Hne|Heq], (decide (k ∈ x :: l)) as [Hin|Hnin];
        rewrite ?app_nil_r; try done.
      * exfalso. apply elem_of_cons in Hin as [?|?]; tauto.
      * exfalso. apply Hnin. destruct (decide (k = x)) as [->|?]; [|tauto].
        apply elem_of_cons. by left.
Qed.

(** *** The reduce *)

Lemma reduce_snoc (acc : Groups) (events : list ProcessedEvent) (e : ProcessedEvent) :
  reduce acc (events ++ [e]) = reduce acc events ≫= λ acc', group_step acc' e.
Proof.
  revert acc. induction events as [|e' events IH]; intros acc; simpl.
  - by destruct (group_step acc e).
  - destruct (group_step acc e'); [apply IH|done].
Qed.

Lemma own_group_fmap (f : string → list ProcessedEvent) (ks : list string) (k : string) :
  own_group ((λ k, (k, f k)) <$> ks) k = if decide (k ∈ ks) then Some (f k) else None.
Proof.
  induction ks as [|x ks IH]; csimpl; [done|].
  destruct (String.eqb_spec x k) as [->|Hne].
  - rewrite decide_True; [done|]. apply elem_of_cons. by left.
  - rewrite IH. destruct (decide (k ∈ ks)) as [Hin|Hout].
    + rewrite decide_True; [done|]. apply elem_of_cons. by right.
    + rewrite decide_False; [done|]. rewrite elem_of_cons. intros [?|?]; by subst.
Qed.

Lemma push_group_fmap (f : string → list ProcessedEvent) (ks : list string) (k : string)
    (e : ProcessedEvent) :
  NoDup ks →
  push_group ((λ k, (k, f k)) <$> ks) k e
  = (λ k', (k', if decide (k' = k) then f k' ++ [e] else f k')) <$> ks.
Proof.
  induction 1 as [|x ks Hx Hks IH]; csimpl; [done|].
  destruct (String.eqb_spec x k) as [->|Hne].
  - rewrite decide_True by done. f_equal.
    apply list_fmap_ext. intros i k' Hk'.
    rewrite decide_False; [done|]. intros ->. apply Hx. by eapply list_elem_of_lookup_2.
  - rewrite decide_False by done. by rewrite IH.
Qed.

Lemma push_group_new (acc : Groups) (k : string) (arr : list ProcessedEvent)
    (e : ProcessedEvent) :
  own_group acc k = None →
  push_group (acc ++ [(k, arr)]) k e = acc ++ [(k, arr ++ [e])].
Proof.
  induction acc as [|[k' arr'] acc IH]; csimpl.
  - by rewrite String.eqb_refl.
  - destruct (String.eqb k' k); [done|]. intros H. by rewrite IH.
Qed.

Lemma section_snoc (k : string) (events : list ProcessedEvent) (e : ProcessedEvent) :
  section k (events ++ [e])
  = section k events ++ (if decide (sectionType e = k) then [e] else []).
Proof. unfold section. by rewrite filter_app, filter_singleton by exact []. Qed.

Lemma section_absent (k : string) (events : list ProcessedEvent) :
  k ∉ sectionType <$> events → section k events = [].
Proof.
  intros Hk. unfold section.
  induction events as [|e events IH]; [done|].
  rewrite fmap_cons, not_elem_of_cons in Hk. destruct Hk as [Hne Hk].
  rewrite filter_cons_False by done. by apply IH.
Qed.

(** Unless a section is named like a member of [Object.prototype], the reduce
    returns the grouping. *)
Lemma groupedEvents_grouping (events : list ProcessedEvent) :
  Forall (λ e, inherited (sectionType e) = false) events →
  groupedEvents events = Some (grouping events).
Proof.
  unfold groupedEvents.
  induction events as [|e events IH] using rev_ind; intros Hplain; [done|].
  rewrite Forall_app, Forall_singleton in Hplain. destruct Hplain as [Hevents He].
  rewrite reduce_snoc, (IH Hevents). csimpl.
  unfold group_step, read_group, grouping.
  rewrite own_group_fmap, fmap_app, list_fmap_singleton, first_seen_snoc.
  destruct (decide (sectionType e ∈ first_seen (sectionType <$> events))) as [Hin|Hout].
  - rewrite decide_True by (by apply elem_of_first_seen).
    rewrite push_group_fmap by apply NoDup_first_seen.
    f_equal. apply list_fmap_ext. intros i k Hk.
    rewrite section_snoc.
    destruct (decide (k = sectionType e)) as [->|Hne].
    + by rewrite decide_True.
    + rewrite decide_False by done. by rewrite app_nil_r.
  - rewrite decide_False by (by rewrite <- elem_of_first_seen).
    rewrite He.
    rewrite push_group_new by (rewrite own_group_fmap; by rewrite decide_False).
    rewrite fmap_app, list_fmap_singleton. f_equal. f_equal.
    + apply list_fmap_ext. intros i k Hk.
      rewrite section_snoc, decide_False, app_nil_r; [done|].
      intros Heq. apply Hout. rewrite Heq. by eapply list_elem_of_lookup_2.
    + rewrite section_snoc, decide_True by done.
      rewrite section_absent; [done|]. by rewrite <- elem_of_first_seen.
Qed.

(** Whatever the sections are, a reduce that returns keeps every event, once. *)
Lemma concat_push_group (acc : Groups) (k : string) (e : ProcessedEvent) :
  is_Some (own_group acc k) →
  concat (snd <$> push_group acc k e) ≡ₚ concat (snd <$> acc) ++ [e].
Proof.
  induction acc as [|[k' arr] acc IH]; csimpl.
  - by intros [? ?].
  - destruct (String.eqb k' k); csimpl; intros H.
    + rewrite <- !app_assoc. apply Permutation_app_head, Permutation_app_comm.
    + rewrite <- app_assoc. by apply Permutation_app_head, IH.
Qed.

Lemma concat_group_step (acc acc' : Groups) (e : ProcessedEvent) :
  group_step acc e = Some acc' →
  concat (snd <$> acc') ≡ₚ concat (snd <$> acc) ++ [e].
Proof.
  unfold group_step, read_group.
  destruct (own_group acc (sectionType e)) as [arr|] eqn:Hown.
  - intros [= <-]. apply concat_push_group. by rewrite Hown.
  - destruct (inherited (sectionType e)); [done|]. intros [= <-].
    rewrite push_group_new by done.
    rewrite !fmap_app, !concat_app. by csimpl.
Qed.

Lemma concat_reduce (events : list ProcessedEvent) (acc acc' : Groups) :
  reduce acc events = Some acc' →
  concat (snd <$> acc') ≡ₚ concat (snd <$> acc) ++ events.
Proof.
  revert acc. induction events as [|e events IH]; intros acc; simpl.
  - intros [= <-]. by rewrite app_nil_r.
  - destruct (group_step acc e) as [acc1|] eqn:Hstep; [|done].
    intros Hred. rewrite (IH _ Hred), (concat_group_step _ _ _ Hstep).
    by rewrite <- app_assoc.
Qed.

(** *** The sections of a live timeline *)

Lemma categories_plain : Forall plain categories.
Proof. repeat constructor. Qed.

Lemma classify_category (nodeName : string) (nodeEvent : JsValue)
    (entry : ProcessedEvent) (raised : bool) :
  classify nodeName nodeEvent = Some (entry, raised) → sectionType entry ∈ categories.
Proof.
  unfold classify.
  destruct (truthy nodeEvent && typeof_object nodeEvent
            && truthy (prop nodeEvent "type")); [|done].
  repeat match goal with
         | |- context [if ?b then _ else _] => destruct b
         end;
    intros [= <- _]; cbn [sectionType]; unfold categories;
    rewrite !elem_of_cons; tauto.
Qed.

Lemma entries_categories (event : list (string * JsValue)) :
  Forall (λ e, sectionType e ∈ categories) (entries event).
Proof.
  induction event as [|node event IH]; [constructor|].
  unfold entries. rewrite processTick_cons.
  destruct (classify node.1 node.2) as [[entry raised]|] eqn:Hc; [|exact IH].
  constructor; [by eapply classify_category|exact IH].
Qed.

Lemma live_handleSubmit (text effort model : string) (now : N) (s : State) :
  live (handleSubmit text effort model now s)
  = if String.eqb (trim text) "" then live s else [].
Proof.
  unfold handleSubmit. destruct (String.eqb (trim text) ""); [done|].
  unfold live, array_at; simpl. by rewrite list_lookup_middle.
Qed.

Lemma live_archiveEffect (s : State) : live (archiveEffect s) = live s.
Proof.
  unfold archiveEffect.
  destruct (hasFinalizeEventOccurredRef s && negb (isLoading s)
            && (0 <? length (messages s))%nat); [|done].
  destruct (archive_key (last (messages s))); [|done].
  unfold live, array_at; simpl.
  destruct (decide (processedEventsTimeline s < length (arrays s))) as [Hlt|Hge].
  - by rewrite lookup_app_l.
  - rewrite (lookup_ge_None_2 (arrays s)) by lia. simpl.
    destruct (decide (processedEventsTimeline s = length (arrays s))) as [->|Hne].
    + by rewrite list_lookup_middle.
    + rewrite lookup_ge_None_2; [done|]. rewrite length_app. simpl. lia.
Qed.

Lemma live_step_categories (s : State) (a : Action) :
  Forall (λ e, sectionType e ∈ categories) (live s) →
  Forall (λ e, sectionType e ∈ categories) (live (step s a)).
Proof.
  intros Hs. destruct a as [event|text effort model now|msgs loading|]; simpl.
  - rewrite live_onUpdateEvent. apply Forall_app. split; [done|apply entries_categories].
  - rewrite live_handleSubmit. by destruct (String.eqb (trim text) "").
  - exact Hs.
  - by rewrite live_archiveEffect.
Qed.

Lemma live_run_categories (actions : list Action) (s : State) :
  Forall (λ e, sectionType e ∈ categories) (live s) →
  Forall (λ e, sectionType e ∈ categories) (live (run s actions)).
Proof.
  revert s. induction actions as [|a actions IH]; intros s Hs; simpl; [done|].
  by apply IH, live_step_categories.
Qed.

(** *** The partition *)

(** The grouped view of a list of events whose sections are plain keys. *)
Lemma groupedEvents_plain (events : list ProcessedEvent) :
  Forall (λ e, plain (sectionType e)) events →
  ∃ groups,
    groupedEvents events = Some groups ∧
    Object_keys groups = first_seen (sectionType <$> events) ∧
    Object_entries groups = (λ k, (k, section k events)) <$> Object_keys groups ∧
    concat (snd <$> Object_entries groups) ≡ₚ events.
Proof.
  intros Hplain.
  assert (Hred : groupedEvents events = Some (grouping events)).
  { apply groupedEvents_grouping. eapply Forall_impl; [exact Hplain|]. by intros e [_ ?]. }
  assert (Hent : Object_entries (grouping events) = grouping events).
  { apply Object_entries_plain. unfold grouping.
    apply Forall_fmap, Forall_forall. intros k Hk. simpl.
    apply elem_of_first_seen, list_elem_of_fmap in Hk as (e & -> & He).
    rewrite Forall_forall in Hplain. by destruct (Hplain e He). }
  assert (Hkeys : Object_keys (grouping events) = first_seen (sectionType <$> events)).
  { unfold Object_keys. rewrite Hent. unfold grouping.
    change (List.map fst) with (fmap (M := list) (@fst string (list ProcessedEvent))).
    rewrite <- list_fmap_compose. by rewrite list_fmap_id. }
  exists (grouping events). split; [done|]. split; [done|]. split.
  - by rewrite Hkeys, Hent.
  - rewrite Hent. by rewrite (concat_reduce _ _ _ Hred).
Qed.

(** C2.  For the live timeline after any run of the component, [groupedEvents]
    returns a grouped view that partitions it: the keys are the sections of
    the timeline in the order of their first occurrence, without repetition;
    the events under a key are the sub-sequence of the timeline with that
    section, in timeline order; the groups together hold every event of the
    timeline once; and an event is listed under a key exactly when the key is
    its section. *)
Theorem groupedEvents_partitions_live_timeline (actions : list Action) :
  let timeline := live (run initial actions) in
  ∃ groups,
    groupedEvents timeline = Some groups ∧
    Object_keys groups = first_seen (sectionType <$> timeline) ∧
    NoDup (Object_keys groups) ∧
    Object_entries groups = (λ k, (k, section k timeline)) <$> Object_keys groups ∧
    concat (snd <$> Object_entries groups) ≡ₚ timeline ∧
    ∀ e, e ∈ timeline →
      sectionType e ∈ Object_keys groups ∧
      ∀ k, e ∈ section k timeline ↔ k = sectionType e.
Proof.
  intros timeline.
  assert (Hcat : Forall (λ e, sectionType e ∈ categories) timeline).
  { apply live_run_categories. constructor. }
  destruct (groupedEvents_plain timeline) as (groups & Hred & Hkeys & Hent & Hperm).
  { eapply Forall_impl; [exact Hcat|]. intros e He. simpl in He.
    pose proof categories_plain as Hp. rewrite Forall_forall in Hp. by apply Hp. }
  exists groups. split; [done|]. split; [done|]. split.
  { rewrite Hkeys. apply NoDup_first_seen. }
  split; [done|]. split; [done|].
  intros e He. split.
  - rewrite Hkeys. apply elem_of_first_seen, list_elem_of_fmap. by exists e.
  - intros k. unfold section. rewrite list_elem_of_filter.
    split; [by intros [<- _]|by intros ->].
Qed.

End Grouping.

(* ===================================================================== *)
(** ** Archival and submission *)
(* ===================================================================== *)

Module Archive.
Import Js ActivityTimeline App Spec Scenarios Classifier Grouping.

(** *** The store only grows *)

(** Splits a step of the component into the branches its code takes. *)
Ltac step_cases s a :=
  destruct a as [?event|?text ?effort ?model ?now|?msgs ?loading|];
  cbn [step]; unfold onUpdateEvent, handleSubmit, archiveEffect;
  repeat match goal with
         | |- context [processTick ?e ?r] => destruct (processTick e r) as [?new ?ref]
         | |- context [archive_key ?m] => destruct (archive_key m)
         | |- context [if ?b then _ else _] => destruct b
         end;
  cbn [arrays processedEventsTimeline historicalActivities
       hasFinalizeEventOccurredRef messages isLoading submitted].

Lemma arrays_step (s : State) (a : Action) :
  ∃ new, arrays (step s a) = arrays s ++ new.
Proof.
  step_cases s a; first [by eexists | exists []; by rewrite app_nil_r].
Qed.

Lemma array_at_step (s : State) (a : Action) (r : nat) :
  r < length (arrays s) → array_at (step s a) r = array_at s r.
Proof.
  intros Hr. destruct (arrays_step s a) as [new Hnew].
  unfold array_at. by rewrite Hnew, lookup_app_l.
Qed.

Lemma length_arrays_step (s : State) (a : Action) :
  (length (arrays s) ≤ length (arrays (step s a)))%nat.
Proof.
  destruct (arrays_step s a) as [new ->]. rewrite length_app. lia.
Qed.

(** Only the archival effect writes to [historicalActivities]. *)
Lemma historicalActivities_step (s : State) (a : Action) :
  is_effect a = false → historicalActivities (step s a) = historicalActivities s.
Proof.
  intros Ha. step_cases s a; done.
Qed.

(** The live timeline of a reachable state is an allocated array. *)
Lemma timeline_allocated_step (s : State) (a : Action) :
  processedEventsTimeline s < length (arrays s) →
  processedEventsTimeline (step s a) < length (arrays (step s a)).
Proof.
  intros Hs. step_cases s a; rewrite ?length_app; simpl; lia.
Qed.



Lemma handleSubmit_nonblank (text effort model : string) (now : N) (s : State) :
  trim text ≠ "" →
  handleSubmit text effort model now s
  = {| arrays := arrays s ++ [[]];
       processedEventsTimeline := length (arrays s);
       historicalActivities := historicalActivities s;
       hasFinalizeEventOccurredRef := false;
       messages := messages s;
       isLoading := isLoading s;
       submitted := submitted s ++
         [ {| r_messages := messages s ++ [ {| m_type := "human";
                                               m_content := text;
                                               m_id := Some (pretty now) |} ];
              initial_search_query_count := fst (effort_budget effort);
              max_research_loops := snd (effort_budget effort);
              reasoning_model := model;
              effort := effort |} ] |}.
Proof.
  intros Hne. unfold handleSubmit.
  by destruct (String.eqb_spec (trim text) "").
Qed.








(** The archive in that run is the two entries of the finished run. *)
Example archive_of_finalized_run :
  title <$> default [] (archived (run (archiveEffect (run initial finalized_run))
                                       later_ticks) "42")
  = ["Generating Search Queries"; "Finalizing Answer"].
Proof. vm_compute. reflexivity. Qed.

(** The archives after the next run: the one of ["42"] as it was, and the
    one of ["43"]. *)
Example archives_after_later_run :
  (title <$> default [] (archived (run (archiveEffect (run initial finalized_run))
                                        later_run) "42"),
   title <$> default [] (archived (run (archiveEffect (run initial finalized_run))
                                        later_run) "43"))
  = (["Generating Search Queries"; "Finalizing Answer"],
     ["Web Research Status"; "Finalizing Answer"]).
Proof. vm_compute. reflexivity. Qed.


(** What the archive of ["42"] holds before and after that run. *)
Example archive_overwritten :
  (title <$> default [] (archived (archiveEffect (run initial finalized_run)) "42"),
   title <$> default [] (archived (run (archiveEffect (run initial finalized_run))
                                        overwriting_run) "42"))
  = (["Generating Search Queries"; "Finalizing Answer"],
     ["Web Research Status"; "Finalizing Answer"]).
Proof. vm_compute. reflexivity. Qed.

(** *** A finalize signal without a matching assistant message *)

Lemma archiveEffect_idle (s : State) :
  hasFinalizeEventOccurredRef s = false → archiveEffect s = s.
Proof. intros H. unfold archiveEffect. by rewrite H. Qed.

Lemma idle_run (actions : list Action) (s : State) :
  Forall (λ a, is_thread_or_effect a = true) actions →
  hasFinalizeEventOccurredRef s = false →
  hasFinalizeEventOccurredRef (run s actions) = false ∧
  historicalActivities (run s actions) = historicalActivities s.
Proof.
  intros Hactions. revert s.
  induction Hactions as [|a actions Ha _ IH]; intros s Hs; simpl; [done|].
  destruct a as [event|text effort model now|msgs loading|]; try discriminate; simpl.
  - by apply (IH (step s (Thread msgs loading))).
  - rewrite archiveEffect_idle by done. by apply IH.
Qed.

(** C4 (amended).  With the finalize signal latched and no assistant message
    with an id at the end of the message list: while the run is active or the
    message list is empty the effect changes nothing and the signal stays
    latched; once the run has stopped with a non-empty message list the effect
    clears the signal and writes no archive, and no later change of the message
    list makes it write one; a submission of non-blank text clears the signal
    and writes no archive either. *)
Theorem pending_archive_is_dropped (s : State) :
  hasFinalizeEventOccurredRef s = true →
  archive_key (last (messages s)) = None →
  (isLoading s = true ∨ messages s = [] → archiveEffect s = s) ∧
  (isLoading s = false → messages s ≠ [] →
   hasFinalizeEventOccurredRef (archiveEffect s) = false ∧
   historicalActivities (archiveEffect s) = historicalActivities s ∧
   live (archiveEffect s) = live s ∧
   ∀ actions,
     Forall (λ a, is_thread_or_effect a = true) actions →
     historicalActivities (run (archiveEffect s) actions) = historicalActivities s) ∧
  (∀ text effort model now,
     trim text ≠ "" →
     hasFinalizeEventOccurredRef (handleSubmit text effort model now s) = false ∧
     historicalActivities (handleSubmit text effort model now s)
       = historicalActivities s).
Proof.
  intros Href Hkey. split; [|split].
  - intros [Hload| Hempty]; unfold archiveEffect.
    + by rewrite Href, Hload.
    + by rewrite Href, Hempty, andb_false_r.
  - intros Hload Hmsgs.
    assert (Heff : archiveEffect s
                   = {| arrays := arrays s;
                        processedEventsTimeline := processedEventsTimeline s;
                        historicalActivities := historicalActivities s;
                        hasFinalizeEventOccurredRef := false;
                        messages := messages s;
                        isLoading := isLoading s;
                        submitted := submitted s |}).
    { unfold archiveEffect. rewrite Href, Hload, Hkey.
      by destruct (messages s). }
    assert (Hidle : hasFinalizeEventOccurredRef (archiveEffect s) = false)
      by (by rewrite Heff).
    split; [done|]. split; [by rewrite Heff|]. split; [by rewrite Heff|].
    intros actions Hactions.
    destruct (idle_run actions (archiveEffect s) Hactions Hidle) as [_ ->].
    by rewrite Heff.
  - intros text effort model now Hne.
    by rewrite handleSubmit_nonblank.
Qed.

(** The stalled run: finalize tick seen, run stopped, the user's message
    last. *)
Lemma pending_archive_is_dropped_witness :
  (isLoading (run initial stalled_run) = true ∨ messages (run initial stalled_run) = [] →
   archiveEffect (run initial stalled_run) = run initial stalled_run) ∧
  (isLoading (run initial stalled_run) = false → messages (run initial stalled_run) ≠ [] →
   hasFinalizeEventOccurredRef (archiveEffect (run initial stalled_run)) = false ∧
   historicalActivities (archiveEffect (run initial stalled_run))
     = historicalActivities (run initial stalled_run) ∧
   live (archiveEffect (run initial stalled_run)) = live (run initial stalled_run) ∧
   ∀ actions,
     Forall (λ a, is_thread_or_effect a = true) actions →
     historicalActivities (run (archiveEffect (run initial stalled_run)) actions)
       = historicalActivities (run initial stalled_run)) ∧
  (∀ text effort model now,
     trim text ≠ "" →
     hasFinalizeEventOccurredRef
       (handleSubmit text effort model now (run initial stalled_run)) = false ∧
     historicalActivities (handleSubmit text effort model now (run initial stalled_run))
       = historicalActivities (run initial stalled_run)).
Proof.
  apply (pending_archive_is_dropped (run initial stalled_run)); reflexivity.
Defined.

(** C4 as stated fails: in that run the signal is latched, the run has stopped
    and the last message is not an assistant message, yet one run of the
    effect consumes the signal. *)
Lemma finalize_signal_is_consumed :
  hasFinalizeEventOccurredRef (run initial stalled_run) = true ∧
  isLoading (run initial stalled_run) = false ∧
  archive_key (last (messages (run initial stalled_run))) = None ∧
  hasFinalizeEventOccurredRef (archiveEffect (run initial stalled_run)) = false.
Proof. repeat split. Qed.

(** *** Blank submissions *)

Lemma trim_start_blank (text : string) :
  trim_start text = "" ↔ Forall (λ c, is_space c = true) (list_ascii_of_string text).
Proof.
  induction text as [|c text IH]; simpl.
  - split; [constructor|done].
  - destruct (is_space c) eqn:Hc.
    + rewrite IH. split; [by constructor|by inversion 1].
    + split; [done|]. inversion 1; congruence.
Qed.

Lemma trim_end_nonempty (text : string) :
  trim_end text = "" → Forall (λ c, is_space c = true) (list_ascii_of_string text).
Proof.
  induction text as [|c text IH]; simpl; [constructor|].
  destruct (trim_end text); [|done].
  destruct (is_space c) eqn:Hc; [|done]. intros _. constructor; auto.
Qed.

(** The trimmed text is empty exactly when every character is white space. *)
Lemma trim_blank (text : string) :
  trim text = "" ↔ Forall (λ c, is_space c = true) (list_ascii_of_string text).
Proof.
  unfold trim. split.
  - intros H. apply trim_start_blank.
    destruct (trim_start text) as [|c rest] eqn:E; [done|].
    apply trim_end_nonempty in H. inversion H as [|? ? Hc _]; subst.
    clear H. revert E. induction text as [|c' text IH]; simpl; [done|].
    destruct (is_space c') eqn:Hc'; [exact IH|]. intros [= -> _]. congruence.
  - intros H. apply trim_start_blank in H. by rewrite H.
Qed.

(** C10.  A submission whose text trims to the empty string (only white
    space) returns at once: the state is left as it was; in particular the
    live timeline is not cleared, the run-completion flag is not reset and no
    request is dispatched. *)
Theorem blank_submit_is_noop (text effort model : string) (now : N) (s : State) :
  trim text = "" →
  handleSubmit text effort model now s = s ∧
  live (handleSubmit text effort model now s) = live s ∧
  hasFinalizeEventOccurredRef (handleSubmit text effort model now s)
    = hasFinalizeEventOccurredRef s ∧
  submitted (handleSubmit text effort model now s) = submitted s.
Proof.
  intros Hblank.
  assert (Hsame : handleSubmit text effort model now s = s).
  { unfold handleSubmit. by rewrite Hblank. }
  by rewrite Hsame.
Qed.

(** A blank submission in the stalled run, where the timeline is non-empty and
    the flag is set. *)
Lemma blank_submit_is_noop_witness :
  handleSubmit "  " "low" "model" 2%N (run initial stalled_run) = run initial stalled_run ∧
  live (handleSubmit "  " "low" "model" 2%N (run initial stalled_run))
    = live (run initial stalled_run) ∧
  hasFinalizeEventOccurredRef (handleSubmit "  " "low" "model" 2%N (run initial stalled_run))
    = hasFinalizeEventOccurredRef (run initial stalled_run) ∧
  submitted (handleSubmit "  " "low" "model" 2%N (run initial stalled_run))
    = submitted (run initial stalled_run).
Proof.
  apply (blank_submit_is_noop "  " "low" "model" 2%N (run initial stalled_run)).
  reflexivity.
Defined.

(** By contrast a non-blank submission clears the timeline, resets the flag and
    dispatches one request. *)
Lemma nonblank_submit_resets (text effort model : string) (now : N) (s : State) :
  trim text ≠ "" →
  live (handleSubmit text effort model now s) = [] ∧
  hasFinalizeEventOccurredRef (handleSubmit text effort model now s) = false ∧
  length (submitted (handleSubmit text effort model now s)) = S (length (submitted s)).
Proof.
  intros Hne. rewrite live_handleSubmit.
  destruct (String.eqb_spec (trim text) "") as [?|_]; [done|].
  rewrite handleSubmit_nonblank by done. simpl.
  rewrite length_app. simpl. split; [done|]. split; [done|]. lia.
Qed.

End Archive.

(* ===================================================================== *)
(** ** Expand state *)
(* ===================================================================== *)

Module Expand.
Import Js ActivityTimeline App Spec Scenarios Grouping.

(** *** Keys of the grouped view *)

Lemma own_group_None (acc : Groups) (k : string) :
  own_group acc k = None ↔ k ∉ acc.*1.
Proof.
  induction acc as [|[k' arr] acc IH]; csimpl.
  - split; [intros _; apply not_elem_of_nil|done].
  - rewrite not_elem_of_cons, <- IH.
    destruct (String.eqb_spec k' k) as [->|Hne]; [|by intuition].
    split; [done|]. by intros [? _].
Qed.

Lemma push_group_keys (acc : Groups) (k : string) (e : ProcessedEvent) :
  (push_group acc k e).*1 = acc.*1.
Proof.
  induction acc as [|[k' arr] acc IH]; csimpl; [done|].
  destruct (String.eqb k' k); csimpl; [done|]. by rewrite IH.
Qed.

Lemma group_step_keys (acc acc' : Groups) (e : ProcessedEvent) :
  group_step acc e = Some acc' → own_keys_ok acc → own_keys_ok acc'.
Proof.
  unfold group_step, read_group, own_keys_ok.
  destruct (own_group acc (sectionType e)) as [arr|] eqn:Hown.
  - intros [= <-]. by rewrite push_group_keys.
  - destruct (inherited (sectionType e)) eqn:Hinh; [done|].
    intros [= <-] [Hnd Hall].
    rewrite push_group_keys, fmap_app. csimpl. split.
    + apply NoDup_app. split; [done|]. split; [|apply NoDup_singleton].
      intros k Hk Hk'. apply list_elem_of_singleton in Hk' as ->.
      by apply own_group_None in Hown.
    + apply Forall_app. split; [done|]. by constructor.
Qed.

Lemma reduce_keys (events : list ProcessedEvent) (acc acc' : Groups) :
  reduce acc events = Some acc' → own_keys_ok acc → own_keys_ok acc'.
Proof.
  revert acc. induction events as [|e events IH]; intros acc; simpl.
  - by intros [= <-].
  - destruct (group_step acc e) as [acc1|] eqn:Hstep; [|done].
    intros Hred Hacc. eapply IH; [done|]. by eapply group_step_keys.
Qed.

Lemma insert_index_perm {V : Type} (n : N) (kv : string * V)
    (sorted : list (N * (string * V))) :
  (insert_index n kv sorted).*2 ≡ₚ kv :: sorted.*2.
Proof.
  induction sorted as [|[m kv'] sorted IH]; csimpl; [done|].
  destruct (n <? m)%N; csimpl; [done|].
  rewrite IH. apply Permutation_swap.
Qed.

Lemma Object_entries_perm {V : Type} (o : list (string * V)) :
  Object_entries o ≡ₚ o.
Proof.
  unfold Object_entries, named_entries.
  change (List.map snd) with (fmap (M := list) (@snd N (string * V))).
  induction o as [|kv o IH]; csimpl; [done|].
  destruct (array_index kv.1); csimpl.
  - rewrite insert_index_perm. csimpl. by rewrite IH.
  - rewrite <- Permutation_middle. by rewrite IH.
Qed.

Lemma Object_keys_perm {V : Type} (o : list (string * V)) :
  Object_keys o ≡ₚ o.*1.
Proof.
  unfold Object_keys.
  change (List.map fst) with (fmap (M := list) (@fst string V)).
  by rewrite Object_entries_perm.
Qed.

(** The keys of a grouped view are distinct and none is an inherited name. *)
Lemma groupedEvents_keys (events : list ProcessedEvent) (groups : Groups) :
  groupedEvents events = Some groups →
  NoDup (Object_keys groups) ∧ Forall (λ k, inherited k = false) (Object_keys groups).
Proof.
  intros Hred. apply reduce_keys in Hred as [Hnd Hall].
  - by rewrite Object_keys_perm.
  - split; constructor.
Qed.

(** *** The default-expand pass *)

Lemma elem_of_pendingDefaults (keys : list string) (es : gmap string bool) (c : string) :
  c ∈ pendingDefaults keys es ↔ c ∈ keys ∧ es !! c = None ∧ inherited c = false.
Proof.
  unfold pendingDefaults.
  rewrite list_elem_of_In, filter_In, <- list_elem_of_In. unfold read_flag.
  destruct (es !! c); simpl; [by intuition|].
  destruct (inherited c); simpl; by intuition.
Qed.

Lemma NoDup_pendingDefaults (keys : list string) (es : gmap string bool) :
  NoDup keys → NoDup (pendingDefaults keys es).
Proof.
  intros H. apply NoDup_ListNoDup, List.NoDup_filter. by apply NoDup_ListNoDup.
Qed.

Lemma lookup_foldl_expandDefault (l : list string) (es : gmap string bool) (c : string) :
  foldl expandDefault es l !! c = if decide (c ∈ l) then Some true else es !! c.
Proof.
  revert es. induction l as [|k l IH]; intros es; cbn [foldl].
  - by rewrite decide_False by apply not_elem_of_nil.
  - rewrite IH. unfold expandDefault.
    destruct (decide (c ∈ l)) as [Hin|Hout].
    + rewrite decide_True; [done|]. apply elem_of_cons. by right.
    + destruct (decide (c = k)) as [->|Hne].
      * rewrite lookup_insert_eq. rewrite decide_True; [done|]. apply elem_of_cons. by left.
      * rewrite lookup_insert_ne by done. rewrite decide_False; [done|].
        rewrite elem_of_cons. tauto.
Qed.

(** A key that is present keeps its value; an absent key of the grouped view
    becomes [true]; nothing else is inserted. *)
Lemma lookup_autoExpand (keys : list string) (es : gmap string bool) (c : string) :
  autoExpand keys es !! c
  = match es !! c with
    | Some b => Some b
    | None => if decide (c ∈ keys ∧ inherited c = false) then Some true else None
    end.
Proof.
  unfold autoExpand. rewrite lookup_foldl_expandDefault.
  destruct (decide (c ∈ pendingDefaults keys es)) as [Hin|Hout].
  - apply elem_of_pendingDefaults in Hin as (Hk & -> & Hinh).
    by rewrite decide_True.
  - destruct (es !! c) as [b|] eqn:Hc; [done|].
    rewrite decide_False; [done|]. intros [Hk Hinh]. apply Hout.
    by apply elem_of_pendingDefaults.
Qed.

Lemma pendingDefaults_nil (keys : list string) (es : gmap string bool) :
  Forall (λ k, is_Some (es !! k) ∨ inherited k = true) keys →
  pendingDefaults keys es = [].
Proof.
  unfold pendingDefaults.
  induction 1 as [|k keys Hk _ IH]; simpl; [done|].
  rewrite IH. unfold read_flag.
  destruct Hk as [[b ->]|Hinh]; [done|].
  destruct (es !! k); [done|]. by rewrite Hinh.
Qed.

Lemma pendingDefaults_autoExpand (keys : list string) (es : gmap string bool) :
  pendingDefaults keys (autoExpand keys es) = [].
Proof.
  apply pendingDefaults_nil, Forall_forall. intros k Hk.
  rewrite lookup_autoExpand.
  destruct (es !! k); [left; by eexists|].
  destruct (inherited k) eqn:Hinh; [by right|].
  left. rewrite decide_True by done. by eexists.
Qed.

Lemma autoExpand_idempotent (keys : list string) (es : gmap string bool) :
  autoExpand keys (autoExpand keys es) = autoExpand keys es.
Proof. unfold autoExpand at 1. by rewrite pendingDefaults_autoExpand. Qed.

(** *** Runs of the view *)

Lemma is_Some_toggleSection (k c : string) (es : gmap string bool) :
  is_Some (es !! c) → is_Some (toggleSection k es !! c).
Proof.
  intros H. unfold toggleSection.
  destruct (decide (k = c)) as [->|Hne].
  - rewrite lookup_insert_eq. by eexists.
  - by rewrite lookup_insert_ne.
Qed.

Lemma is_Some_autoExpand (keys : list string) (c : string) (es : gmap string bool) :
  is_Some (es !! c) → is_Some (autoExpand keys es !! c).
Proof. intros [b Hb]. rewrite lookup_autoExpand, Hb. by eexists. Qed.

Lemma ui_step_ok (v v' : View) (a : UiAction) (log new : list string) :
  ui_step v a = Some (v', new) → view_ok v log → view_ok v' (log ++ new).
Proof.
  intros Hstep (Hshown & Hlog & Hnd).
  destruct a as [events|k]; simpl in Hstep.
  - destruct (groupedEvents events) as [groups|] eqn:Hred; [|done].
    injection Hstep as <- <-.
    destruct (groupedEvents_keys _ _ Hred) as [Hkeys Hown].
    unfold view_ok; simpl. split; [|split].
    + rewrite Forall_forall in Hown. apply Forall_forall. intros k Hk.
      rewrite lookup_autoExpand. destruct (expanded v !! k); [by eexists|].
      rewrite decide_True by (split; [done|by apply Hown]). by eexists.
    + apply Forall_app. split.
      * eapply Forall_impl; [exact Hlog|]. intros k. apply is_Some_autoExpand.
      * apply Forall_forall. intros k Hk.
        apply elem_of_pendingDefaults in Hk as (Hk & Hnone & Hinh).
        rewrite lookup_autoExpand, Hnone, decide_True by done. by eexists.
    + apply NoDup_app. split; [done|]. split; [|by apply NoDup_pendingDefaults].
      intros k Hk Hk'. apply elem_of_pendingDefaults in Hk' as (_ & Hnone & _).
      rewrite Forall_forall in Hlog. destruct (Hlog k Hk) as [b Hb]. congruence.
  - destruct (bool_decide (k ∈ shown v)); [|done].
    injection Hstep as <- <-. rewrite app_nil_r.
    unfold view_ok; simpl. split; [|split; [|done]].
    + eapply Forall_impl; [exact Hshown|]. intros c. apply is_Some_toggleSection.
    + eapply Forall_impl; [exact Hlog|]. intros c. apply is_Some_toggleSection.
Qed.

Lemma ui_run_ok (actions : list UiAction) (v v' : View) (log new : list string) :
  ui_run v actions = Some (v', new) → view_ok v log → view_ok v' (log ++ new).
Proof.
  revert v log new. induction actions as [|a actions IH]; intros v log new; simpl.
  - intros [= <- <-]. by rewrite app_nil_r.
  - destruct (ui_step v a) as [[v1 log1]|] eqn:Hstep; [|done].
    destruct (ui_run v1 actions) as [[v2 log2]|] eqn:Hrun; [|done].
    intros [= <- <-] Hok. rewrite app_assoc.
    eapply IH; [done|]. by eapply ui_step_ok.
Qed.

(** *** Toggling and the default *)

Lemma read_flag_toggleSection (c : string) (es : gmap string bool) :
  read_flag (toggleSection c es) c = Own (negb (isExpanded es c)).
Proof. unfold read_flag, toggleSection. by rewrite lookup_insert_eq. Qed.

(** C5 (amended).  For a section [c] without a key in the expand state (and
    not named like a member every object inherits), [toggleSection] reads the
    flag as [undefined], which is falsy (the section shows collapsed), and
    stores its negation: afterwards the flag of [c] is [true] and the section
    shows expanded. *)
Theorem toggle_absent_stores_true (c : string) (es : gmap string bool) :
  es !! c = None →
  inherited c = false →
  isExpanded es c = false ∧
  toggleSection c es !! c = Some true ∧
  isExpanded (toggleSection c es) c = true.
Proof.
  intros Hnone Hinh.
  assert (Hread : isExpanded es c = false).
  { unfold isExpanded, read_flag. by rewrite Hnone, Hinh. }
  split; [done|]. split.
  - unfold toggleSection. rewrite lookup_insert_eq.
    fold (isExpanded es c). by rewrite Hread.
  - unfold isExpanded at 1. by rewrite read_flag_toggleSection, Hread.
Qed.

(** On the empty expand state, for the section ["Coding"]. *)
Lemma toggle_absent_stores_true_witness :
  isExpanded ∅ "Coding" = false ∧
  toggleSection "Coding" ∅ !! "Coding" = Some true ∧
  isExpanded (toggleSection "Coding" ∅) "Coding" = true.
Proof. apply (toggle_absent_stores_true "Coding" ∅); reflexivity. Defined.

(** C5 as stated fails: on the empty expand state, toggling ["Coding"] leaves
    its flag [true], not [false]. *)
Lemma toggle_absent_is_not_false :
  ¬ (∀ (c : string) (es : gmap string bool),
       es !! c = None → toggleSection c es !! c = Some false).
Proof.
  intros H. specialize (H "Coding" ∅ eq_refl).
  unfold toggleSection in H. rewrite lookup_insert_eq in H. discriminate H.
Qed.

(** C7.  Toggling a section twice restores what the view reads for it
    (expanded or collapsed), for every section and every expand state; when
    the section has a key, as every section with a header on screen has, the
    expand state is the one before the two toggles; the other sections are
    never touched. *)
Theorem toggle_twice_restores (c : string) (es : gmap string bool) :
  isExpanded (toggleSection c (toggleSection c es)) c = isExpanded es c ∧
  (∀ b, es !! c = Some b → toggleSection c (toggleSection c es) = es) ∧
  (∀ c', c' ≠ c → toggleSection c (toggleSection c es) !! c' = es !! c') ∧
  (∀ actions v log,
     ui_run initial_view actions = Some (v, log) → es = expanded v → c ∈ shown v →
     toggleSection c (toggleSection c es) = es).
Proof.
  assert (Hkey : ∀ b, es !! c = Some b → toggleSection c (toggleSection c es) = es).
  { intros b Hb. unfold toggleSection at 1.
    rewrite read_flag_toggleSection. simpl. rewrite negb_involutive.
    unfold toggleSection. rewrite insert_insert_eq.
    apply insert_id. rewrite Hb. unfold isExpanded, read_flag. by rewrite Hb. }
  split; [|split; [exact Hkey|split]].
  - unfold isExpanded at 1. rewrite read_flag_toggleSection.
    unfold isExpanded at 1. rewrite read_flag_toggleSection.
    simpl. apply negb_involutive.
  - intros c' Hne. unfold toggleSection. by rewrite !lookup_insert_ne.
  - intros actions v log Hrun -> Hc.
    destruct (ui_run_ok actions initial_view v [] log Hrun) as (Hshown & _ & _).
    { repeat split; constructor. }
    rewrite Forall_forall in Hshown. destruct (Hshown c Hc) as [b Hb]. by eapply Hkey.
Qed.

(** With the flag of ["Coding"] stored, two toggles give the state back. *)
Lemma toggle_twice_restores_witness :
  toggleSection "Coding" (toggleSection "Coding" {["Coding" := true]})
  = {["Coding" := true]}.
Proof.
  apply (proj1 (proj2 (toggle_twice_restores "Coding" {["Coding" := true]})) true).
  reflexivity.
Defined.

(** C6.  Along any sequence of renders and clicks from the initial view:
    every section header on screen has its flag stored, so the default was
    applied before any click on it could happen; a section of the grouped view
    without a key is queued for the default once by the render that reads it
    and holds [true] afterwards, and it was never defaulted before; a section
    with a key keeps its value through the read and is not queued; a second
    read queues nothing; and over the whole sequence no section is defaulted
    twice. *)
Theorem default_expand_once (actions : list UiAction) (v : View) (log : list string) :
  ui_run initial_view actions = Some (v, log) →
  NoDup log ∧
  (∀ k, k ∈ shown v → is_Some (expanded v !! k)) ∧
  ∀ processedEvents groups c,
    groupedEvents processedEvents = Some groups →
    c ∈ Object_keys groups →
    (expanded v !! c = None →
     autoExpand (Object_keys groups) (expanded v) !! c = Some true ∧
     c ∈ pendingDefaults (Object_keys groups) (expanded v) ∧
     c ∉ log) ∧
    (∀ b, expanded v !! c = Some b →
     autoExpand (Object_keys groups) (expanded v) !! c = Some b ∧
     c ∉ pendingDefaults (Object_keys groups) (expanded v)) ∧
    NoDup (pendingDefaults (Object_keys groups) (expanded v)) ∧
    pendingDefaults (Object_keys groups)
      (autoExpand (Object_keys groups) (expanded v)) = [].
Proof.
  intros Hrun.
  destruct (ui_run_ok actions initial_view v [] log Hrun) as (Hshown & Hlog & Hnd).
  { repeat split; constructor. }
  simpl in Hlog, Hnd. split; [done|]. split.
  { intros k. rewrite Forall_forall in Hshown. apply Hshown. }
  intros events groups c Hred Hc.
  destruct (groupedEvents_keys _ _ Hred) as [Hkeys Hown].
  rewrite Forall_forall in Hown. specialize (Hown c Hc).
  split; [|split; [|split]].
  - intros Hnone. split; [|split].
    + by rewrite lookup_autoExpand, Hnone, decide_True.
    + by apply elem_of_pendingDefaults.
    + intros Hin. rewrite Forall_forall in Hlog.
      destruct (Hlog c Hin) as [b Hb]. congruence.
  - intros b Hb. split.
    + by rewrite lookup_autoExpand, Hb.
    + rewrite elem_of_pendingDefaults. intros (_ & Hnone & _). congruence.
  - by apply NoDup_pendingDefaults.
  - apply pendingDefaults_autoExpand.
Qed.

(** The sample session leads to the sample view, with two defaults logged. *)
Lemma default_expand_once_witness :
  NoDup ["Querying"; "Searching"] ∧
  (∀ k, k ∈ shown sample_view → is_Some (expanded sample_view !! k)) ∧
  ∀ processedEvents groups c,
    groupedEvents processedEvents = Some groups →
    c ∈ Object_keys groups →
    (expanded sample_view !! c = None →
     autoExpand (Object_keys groups) (expanded sample_view) !! c = Some true ∧
     c ∈ pendingDefaults (Object_keys groups) (expanded sample_view) ∧
     c ∉ ["Querying"; "Searching"]) ∧
    (∀ b, expanded sample_view !! c = Some b →
     autoExpand (Object_keys groups) (expanded sample_view) !! c = Some b ∧
     c ∉ pendingDefaults (Object_keys groups) (expanded sample_view)) ∧
    NoDup (pendingDefaults (Object_keys groups) (expanded sample_view)) ∧
    pendingDefaults (Object_keys groups)
      (autoExpand (Object_keys groups) (expanded sample_view)) = [].
Proof.
  apply (default_expand_once sample_session sample_view ["Querying"; "Searching"]).
  vm_compute. reflexivity.
Defined.

(** Sections named like array indices are listed in numeric order, and a
    section named like an inherited member makes the reduce throw: neither is
    a section the classifier assigns. *)
Example groupedEvents_numeric_sections :
  Object_keys <$> groupedEvents [sample_event "b"; sample_event "2"; sample_event "1"]
  = Some ["1"; "2"; "b"].
Proof. reflexivity. Qed.

Example groupedEvents_inherited_section :
  groupedEvents [sample_event "Querying"; sample_event "constructor"] = None.
Proof. reflexivity. Qed.

End Expand.

(* ===================================================================== *)
(** ** The section renderer *)
(* ===================================================================== *)

Module Renderer.
Import Js ActivityTimeline Spec Scenarios.

(** *** The display policy *)

Lemma render_source_shown_as (source : JsValue) :
  nullish source = false →
  ∃ child, render_source source = Some child ∧ shown_as source child.
Proof.
  intros Hsrc. unfold render_source, shown_as, prop, js_or.
  destruct (js_get source "url") as [url|] eqn:Hurl; [|by destruct source].
  simpl. eexists. split; [done|].
  destruct (truthy url) eqn:Ht.
  - destruct (truthy (default JUndefined (js_get source "title"))) eqn:Htitle;
      [left|right; left]; done.
  - right; right. split; [done|]. split; [done|]. by intros [->| ->].
Qed.

Lemma mapM_render_source (sources : list JsValue) :
  Forall (λ source, nullish source = false) sources →
  ∃ children, mapM render_source sources = Some children ∧
              Forall2 shown_as sources children.
Proof.
  induction 1 as [|source sources Hsrc _ (children & Hm & Hall)].
  - exists []. split; [done|constructor].
  - destruct (render_source_shown_as source Hsrc) as (child & Hc & Hshown).
    exists (child :: children). split; [|by constructor].
    cbn [mapM]. rewrite Hc, Hm. done.
Qed.

Lemma slot_field_slot (label field : string) (d : JsValue) :
  field_slot label (prop d field) (slot label field d).
Proof.
  unfold field_slot, slot. destruct (truthy (prop d field)) eqn:Ht; [by left|].
  right. split; [done|]. split; [done|]. by intros [->| ->].
Qed.

(** C8 (amended).  The body of an entry is rendered by the first case that
    applies: (1) with [isSources] set and an array of (non-null) elements as
    data, one child per element, a link for an element with a truthy [url],
    labeled by its [title] when truthy and by the [url] otherwise, and nothing
    displayed for an element whose [url] is absent or empty; (2) text for
    string data; (3) for an object with a text field among [stdout], [stderr],
    [error], three slots in that order, each a labeled block when the field's
    value is truthy and nothing displayed when the field is absent or empty;
    (4) a structural dump of the data otherwise.  For the data
    [{stdout: "ok", stderr: ""}] only the [STDOUT] block is displayed. *)
Theorem render_policy (event : ProcessedEvent) :
  (∀ sources,
     isSources event = true → data event = JArr sources →
     Forall (λ source, nullish source = false) sources →
     ∃ children,
       renderData event = Some (SourceLinks children) ∧
       Forall2 shown_as sources children) ∧
  (∀ s, data event = JStr s → renderData event = Some (Text s)) ∧
  (∀ props,
     data event = JObj props → has_text_output (data event) = true →
     ∃ out err error,
       renderData event = Some (ProcessOutput out err error) ∧
       field_slot "STDOUT" (prop (data event) "stdout") out ∧
       field_slot "STDERR" (prop (data event) "stderr") err ∧
       field_slot "ERROR" (prop (data event) "error") error) ∧
  (isSources event && isArray (data event) = false →
   typeof_string (data event) = false →
   truthy (data event) && has_text_output (data event) = false →
   renderData event = Some (Structured (data event))) ∧
  (data event = JObj [("stdout", JStr "ok"); ("stderr", JStr "")] →
   displayed <$> renderData event = Some [Block "STDOUT" (JStr "ok")]).
Proof.
  unfold renderData, has_text_output. cbv zeta.
  split; [|split; [|split; [|split]]].
  - intros sources Hflag Hdata Hsources.
    destruct (mapM_render_source sources Hsources) as (children & Hm & Hall).
    exists children. rewrite Hflag, Hdata. simpl. by rewrite Hm.
  - intros s Hdata. rewrite Hdata. simpl. by rewrite andb_false_r.
  - intros props Hdata Hout. rewrite Hdata in *. rewrite andb_false_r.
    cbn [typeof_string truthy andb]. rewrite Hout.
    eexists _, _, _. split; [done|]. repeat split; apply slot_field_slot.
  - intros H1 H2 H3. by rewrite H1, H2, H3.
  - intros Hdata. rewrite Hdata. by rewrite andb_false_r.
Qed.

(** The source list of [sources_entry]. *)
Lemma render_policy_witness :
  ∃ children,
    renderData sources_entry = Some (SourceLinks children) ∧
    Forall2 shown_as [ JObj [("url", JStr "https://x"); ("title", JStr "X")];
                       JObj [("title", JStr "no address")];
                       JObj [("url", JStr "https://y")] ] children.
Proof.
  apply (proj1 (render_policy sources_entry)); [reflexivity|reflexivity|].
  repeat constructor.
Defined.

Example sources_entry_displayed :
  displayed <$> renderData sources_entry
  = Some [ Link (JStr "https://x") (JStr "X");
           Link (JStr "https://y") (JStr "https://y") ].
Proof. reflexivity. Qed.

(** C8 as stated fails: a field that is not text is not always omitted.  With
    [{stdout: 1, stderr: "oops"}] a block is emitted for the number. *)
Lemma non_text_field_is_rendered :
  ¬ (∀ event out err error label v,
       renderData event = Some (ProcessOutput out err error) →
       Block label v ∈ [out; err; error] →
       typeof_string v = true).
Proof.
  intros H.
  specialize (H {| title := "Code Execution Output";
                   data := JObj [("stdout", JNum 1); ("stderr", JStr "oops")];
                   sectionType := "Coding";
                   isSources := false |}
                (Block "STDOUT" (JNum 1)) (Block "STDERR" (JStr "oops")) (Bare JUndefined)
                "STDOUT" (JNum 1) eq_refl).
  discriminate H. apply elem_of_cons. by left.
Qed.

End Renderer.

(* ===================================================================== *)
(** ** The mind-map fetch *)
(* ===================================================================== *)

Module MindMap.
Import Js MindMapModal Scenarios.

Section Chain.

(** The messages of the engine's own errors: the [SyntaxError] of [res.json()]
    on a body that is not JSON, and the [TypeError] of reading a property of
    [null]. *)
Variable syntaxError : string.
Variable typeError : string.

Lemma on_error_is_error (message : string) (st : ModalState) :
  ∃ shown, error (on_error message st) = Some shown ∧ shown ≠ "".
Proof.
  unfold on_error. simpl. destruct (String.eqb_spec message ""); eexists; split; done.
Qed.

Lemma fetch_not_ok (res : Response) (st : ModalState) :
  ok res = false →
  fetchMindMap syntaxError typeError (Responded res) st
  = {| isLoading := false;
       error := Some ("Server error (status " +:+ pretty (status res) +:+ "): "
                      +:+ server_detail res);
       rawMermaid := JStr "" |}.
Proof.
  intros Hok. unfold fetchMindMap, on_response. rewrite Hok. reflexivity.
Qed.

Lemma fetch_ok (res : Response) (data : JsValue) (st : ModalState) :
  ok res = true → json res = Some data →
  fetchMindMap syntaxError typeError (Responded res) st
  = match js_get data "mermaid_string" with
    | Some m =>
        if truthy m then {| isLoading := false; error := None; rawMermaid := m |}
        else {| isLoading := false;
                error := Some "Received no mermaid_string or empty data in response.";
                rawMermaid := JStr "" |}
    | None => on_settled (on_error typeError
                            {| isLoading := true; error := None; rawMermaid := JStr "" |})
    end.
Proof.
  intros Hok Hjson. unfold fetchMindMap, on_response, on_data. rewrite Hok, Hjson. simpl.
  destruct (js_get data "mermaid_string") as [m|]; [|done].
  by destruct (truthy m).
Qed.

Lemma loading_ends (outcome : Outcome) (st : ModalState) :
  isLoading (fetchMindMap syntaxError typeError outcome st) = false.
Proof.
  unfold fetchMindMap.
  destruct outcome as [message|res]; [done|].
  destruct (on_response syntaxError res) as [data|message]; [|done].
  by destruct (on_data typeError data _) as [[[]|message] st1].
Qed.

(** Every fetch ends in the success state or in the error state. *)
Lemma fetch_settles (outcome : Outcome) (st : ModalState) :
  (error (fetchMindMap syntaxError typeError outcome st) = None ∧
   truthy (rawMermaid (fetchMindMap syntaxError typeError outcome st)) = true) ∨
  (∃ shown, error (fetchMindMap syntaxError typeError outcome st) = Some shown ∧ shown ≠ "" ∧
            rawMermaid (fetchMindMap syntaxError typeError outcome st) = JStr "").
Proof.
  unfold fetchMindMap.
  destruct outcome as [message|res].
  { right. destruct (on_error_is_error message
                       {| isLoading := true; error := None; rawMermaid := JStr "" |})
      as (shown & Hs & Hne). by exists shown. }
  destruct (on_response syntaxError res) as [data|message].
  - unfold on_data. destruct (js_get data "mermaid_string") as [m|].
    + destruct (truthy m) eqn:Hm; [by left|]. right. by eexists.
    + right. destruct (on_error_is_error typeError
                         {| isLoading := true; error := None; rawMermaid := JStr "" |})
        as (shown & Hs & Hne). by exists shown.
  - right. destruct (on_error_is_error message
                       {| isLoading := true; error := None; rawMermaid := JStr "" |})
      as (shown & Hs & Hne). by exists shown.
Qed.

(** C9 (amended).  A fetch issued for a non-empty chat history leaves the
    loading flag false and the timeline engine as it was, and ends in the
    success state or in the error state with a non-empty message.  A response
    that is ok whose JSON body has a non-empty [mermaid_string] gives the
    success state holding that string; one whose [mermaid_string] is missing
    or empty gives the error state.  A response that is not ok gives the error
    state with the message [Server error (status N): D], where [D] is the
    body's [detail] when the body is JSON with a truthy (non-empty) [detail],
    and the text of the body otherwise, also when [detail] is empty. *)
Theorem mind_map_fetch_outcomes (outcome : Outcome) (chatHistory : list ChatMessage)
    (p : Page) :
  chatHistory ≠ [] →
  isLoading (modal (page_fetch syntaxError typeError true chatHistory outcome p)) = false ∧
  app (page_fetch syntaxError typeError true chatHistory outcome p) = app p ∧
  timeline (page_fetch syntaxError typeError true chatHistory outcome p) = timeline p ∧
  ((error (modal (page_fetch syntaxError typeError true chatHistory outcome p)) = None ∧
    truthy (rawMermaid (modal (page_fetch syntaxError typeError true chatHistory outcome p))) = true) ∨
   (∃ shown,
      error (modal (page_fetch syntaxError typeError true chatHistory outcome p)) = Some shown ∧ shown ≠ "" ∧
      rawMermaid (modal (page_fetch syntaxError typeError true chatHistory outcome p)) = JStr "")) ∧
  (∀ res data s,
     outcome = Responded res → ok res = true → json res = Some data →
     js_get data "mermaid_string" = Some (JStr s) → s ≠ "" →
     modal (page_fetch syntaxError typeError true chatHistory outcome p)
     = {| isLoading := false; error := None; rawMermaid := JStr s |}) ∧
  (∀ res data m,
     outcome = Responded res → ok res = true → json res = Some data →
     js_get data "mermaid_string" = Some m → truthy m = false →
     error (modal (page_fetch syntaxError typeError true chatHistory outcome p))
     = Some "Received no mermaid_string or empty data in response.") ∧
  (∀ res,
     outcome = Responded res → ok res = false →
     (∀ errJson d,
        json res = Some errJson → js_get errJson "detail" = Some d → truthy d = true →
        error (modal (page_fetch syntaxError typeError true chatHistory outcome p))
        = Some ("Server error (status " +:+ pretty (status res) +:+ "): " +:+ ToString d)) ∧
     (json res = None ∨
      (∃ errJson, json res = Some errJson ∧
                  (js_get errJson "detail" = None ∨
                   ∃ d, js_get errJson "detail" = Some d ∧ truthy d = false)) →
      error (modal (page_fetch syntaxError typeError true chatHistory outcome p))
      = Some ("Server error (status " +:+ pretty (status res) +:+ "): " +:+ body res))).
Proof.
  intros Hhistory.
  assert (Hfetch : modal (page_fetch syntaxError typeError true chatHistory outcome p)
                   = fetchMindMap syntaxError typeError outcome (modal p)).
  { unfold page_fetch, mindMapEffect. simpl. by destruct chatHistory. }
  rewrite Hfetch.
  split; [apply loading_ends|]. split; [done|]. split; [done|].
  split; [apply fetch_settles|]. split; [|split].
  - intros res data s -> Hok Hjson Hm Hs.
    rewrite (fetch_ok res data _ Hok Hjson), Hm. simpl.
    by destruct (String.eqb_spec s "").
  - intros res data m -> Hok Hjson Hm Hfalsy.
    by rewrite (fetch_ok res data _ Hok Hjson), Hm, Hfalsy.
  - intros res -> Hok. rewrite (fetch_not_ok res _ Hok). simpl.
    unfold server_detail. split.
    + intros errJson d -> -> ->. done.
    + intros [->|(errJson & -> & [->|(d & -> & ->)])]; done.
Qed.

End Chain.

(** A response [404] whose body is JSON with the detail [Not Found]. *)
Lemma mind_map_fetch_outcomes_witness :
  error (modal (page_fetch "SyntaxError" "TypeError" true some_history
                  (Responded not_found) some_page))
  = Some "Server error (status 404): Not Found".
Proof.
  refine (proj1 (proj2 (proj2 (proj2 (proj2 (proj2 (proj2
            (mind_map_fetch_outcomes "SyntaxError" "TypeError"
               (Responded not_found) some_history some_page _))))))
            not_found eq_refl eq_refl)
          (JObj [("detail", JStr "Not Found")]) (JStr "Not Found")
          eq_refl eq_refl eq_refl).
  discriminate.
Defined.

(** C9 as stated fails: the body of [empty_detail] is JSON containing a
    [detail] field, yet the message carries the text of the body, not the
    field. *)
Lemma empty_detail_falls_back_to_body :
  ¬ (∀ res props d st,
       ok res = false → json res = Some (JObj props) → own props "detail" = Some d →
       error (fetchMindMap "SyntaxError" "TypeError" (Responded res) st)
       = Some ("Server error (status " +:+ pretty (status res) +:+ "): " +:+ ToString d)).
Proof.
  intros H.
  specialize (H empty_detail [("detail", JStr "")] (JStr "") closed
                eq_refl eq_refl eq_refl).
  vm_compute in H. discriminate H.
Qed.

End MindMap.

(* ===================================================================== *)
(** ** One tick of the stream *)
(* ===================================================================== *)

Module Ticks.
Import Js ActivityTimeline App Spec Notions Classifier.

Lemma classify_typed (nodeName : string) (nodeEvent : JsValue) :
  typed nodeEvent = true →
  ∃ entry, classify nodeName nodeEvent
           = Some (entry, String.eqb nodeName "finalize_answer") ∧
           (nodeName = "finalize_answer" → finalizing entry).
Proof.
  unfold typed. destruct (payload_type nodeEvent) as [ty|] eqn:Hty; [|done].
  intros Htruthy.
  destruct (classify_accepts nodeName nodeEvent ty Hty Htruthy)
    as (entry & raised & Hc & _ & Hrow).
  exists entry. rewrite Hc.
  destruct (String.eqb_spec nodeName "finalize_answer") as [->|Hne].
  - inversion Hrow; subst.
    + by repeat split.
    + exfalso. match goal with H : _ ∉ known_nodes |- _ => apply H end.
      unfold known_nodes. rewrite !elem_of_cons. tauto.
  - inversion Hrow; subst; by split.
Qed.

Lemma classify_untyped (nodeName : string) (nodeEvent : JsValue) :
  typed nodeEvent = false → classify nodeName nodeEvent = None.
Proof.
  unfold typed. intros H. apply classify_rejects.
  destruct (payload_type nodeEvent) as [ty|]; [right; by exists ty|by left].
Qed.


(** The entries and the flag of a tick, from its typed payloads. *)
Lemma processTick_typed (event : list (string * JsValue)) :
  length (entries event) = length (List.filter (λ node, typed (snd node)) event) ∧
  snd (processTick event false) = existsb finalizes event ∧
  (existsb finalizes event = true → ∃ e, e ∈ entries event ∧ finalizing e).
Proof.
  induction event as [|node event (IHlen & IHflag & IHentry)]; [by repeat split|].
  unfold entries. rewrite processTick_cons. cbn [existsb List.filter].
  assert (Hnode : finalizes node
                  = String.eqb (fst node) "finalize_answer" && typed (snd node))
    by reflexivity.
  rewrite Hnode. clear Hnode.
  destruct (typed (snd node)) eqn:Htyped.
  - destruct (classify_typed (fst node) (snd node) Htyped) as (entry & -> & Hfin).
    cbn [fst snd length]. rewrite andb_true_r, IHlen, IHflag.
    split; [done|]. split; [done|]. intros Hraised.
    destruct (String.eqb_spec (fst node) "finalize_answer") as [Hname|_].
    + exists entry. split; [apply elem_of_cons; by left|auto].
    + destruct (IHentry Hraised) as (e & He & Hfinal).
      exists e. split; [apply elem_of_cons; by right|done].
  - rewrite (classify_untyped _ _ Htyped), andb_false_r.
    rewrite processTick_split. cbn [fst snd orb]. by repeat split.
Qed.

(** X1.  A tick in which no payload is an object with a truthy [type] leaves
    the state as it was: nothing is appended, no array is allocated and the
    flag keeps its value. *)
Theorem tick_without_typed_payload_is_noop (event : list (string * JsValue))
    (s : State) :
  Forall (λ node, typed (snd node) = false) event →
  onUpdateEvent event s = s.
Proof.
  intros Huntyped.
  assert (Hfilter : List.filter (λ node, typed (snd node)) event = []).
  { induction Huntyped as [|node event Hnode _ IH]; [done|].
    cbn [List.filter]. by rewrite Hnode. }
  assert (Hnone : existsb finalizes event = false).
  { induction Huntyped as [|node event Hnode _ IH]; [done|].
    cbn [existsb]. unfold finalizes at 1. rewrite Hnode, andb_false_r. apply IH.
    cbn [List.filter] in Hfilter. by rewrite Hnode in Hfilter. }
  destruct (processTick_typed event) as (Hlen & Hflag & _).
  rewrite Hfilter in Hlen. rewrite Hnone in Hflag.
  unfold onUpdateEvent. rewrite processTick_split, Hflag, orb_false_r.
  destruct (entries event); [|done]. by destruct s.
Qed.

Lemma tick_without_typed_payload_is_noop_witness :
  onUpdateEvent [("web_research", JObj [("data", JStr "no type")]);
                 ("reflection", JStr "not an object");
                 ("finalize_answer", JObj [("type", JStr "")])] initial
  = initial.
Proof.
  apply tick_without_typed_payload_is_noop. repeat constructor.
Defined.

(** X2.  A tick extends the live timeline by one entry for each payload that
    is an object with a truthy [type], in the order of the tick, and touches
    neither the archives, nor the message list, nor the requests sent. *)
Theorem tick_appends_typed_payloads (event : list (string * JsValue)) (s : State) :
  live s `prefix_of` live (onUpdateEvent event s) ∧
  length (live (onUpdateEvent event s))
  = length (live s) + length (List.filter (λ node, typed (snd node)) event) ∧
  (length (live (onUpdateEvent event s)) ≤ length (live s) + length event)%nat ∧
  historicalActivities (onUpdateEvent event s) = historicalActivities s ∧
  messages (onUpdateEvent event s) = messages s ∧
  isLoading (onUpdateEvent event s) = isLoading s ∧
  submitted (onUpdateEvent event s) = submitted s.
Proof.
  destruct (processTick_typed event) as (Hlen & _ & _).
  rewrite live_onUpdateEvent, length_app, Hlen.
  split; [by eexists|]. split; [done|]. split.
  { pose proof (List.filter_length_le (λ node, typed (snd node)) event). lia. }
  unfold onUpdateEvent.
  destruct (processTick event (hasFinalizeEventOccurredRef s)) as [new ref].
  by destruct (0 <? length new)%nat.
Qed.

Lemma submitted_onUpdateEvent (event : list (string * JsValue)) (s : State) :
  submitted (onUpdateEvent event s) = submitted s.
Proof.
  unfold onUpdateEvent.
  destruct (processTick event (hasFinalizeEventOccurredRef s)) as [new ref].
  by destruct (0 <? length new)%nat.
Qed.

Lemma flag_after_tick (event : list (string * JsValue)) (s : State) :
  hasFinalizeEventOccurredRef (onUpdateEvent event s)
  = hasFinalizeEventOccurredRef s || existsb finalizes event.
Proof.
  destruct (processTick_typed event) as (_ & Hflag & _).
  by rewrite ref_onUpdateEvent, Hflag.
Qed.

(** X3.  After a tick the run-completion flag is set exactly when it was set
    before or the tick holds a [finalize_answer] payload with a truthy
    [type]; a tick never clears the flag, and a tick that raises it also
    appends the [Finalizing Answer] entry to the live timeline. *)
Theorem tick_raises_flag_on_finalize (event : list (string * JsValue)) (s : State) :
  hasFinalizeEventOccurredRef (onUpdateEvent event s)
  = hasFinalizeEventOccurredRef s || existsb finalizes event ∧
  (hasFinalizeEventOccurredRef s = true →
   hasFinalizeEventOccurredRef (onUpdateEvent event s) = true) ∧
  (hasFinalizeEventOccurredRef s = false →
   hasFinalizeEventOccurredRef (onUpdateEvent event s) = true →
   ∃ e, e ∈ live (onUpdateEvent event s) ∧
        sectionType e = "Finalizing" ∧ title e = "Finalizing Answer").
Proof.
  rewrite flag_after_tick, live_onUpdateEvent.
  split; [done|]. split; [by intros ->|].
  intros -> Hraised. cbn [orb] in Hraised.
  destruct (processTick_typed event) as (_ & _ & Hentry).
  destruct (Hentry Hraised) as (e & He & Hfinal).
  exists e. split; [apply elem_of_app; by right|exact Hfinal].
Qed.

End Ticks.

(* ===================================================================== *)
(** ** Runs of the component *)
(* ===================================================================== *)

Module Runs.
Import Js ActivityTimeline App Spec Notions Scenarios Classifier Grouping Archive Ticks.

(** *** The archival effect *)

(** What the effect does: nothing, or it clears the flag, after archiving when
    the trailing message is an assistant message with an id. *)
Lemma archiveEffect_cases (s : State) :
  archiveEffect s = s ∨
  (hasFinalizeEventOccurredRef s = true ∧
   hasFinalizeEventOccurredRef (archiveEffect s) = false ∧
   processedEventsTimeline (archiveEffect s) = processedEventsTimeline s ∧
   messages (archiveEffect s) = messages s ∧
   isLoading (archiveEffect s) = isLoading s ∧
   submitted (archiveEffect s) = submitted s ∧
   match archive_key (last (messages s)) with
   | Some m =>
       arrays (archiveEffect s) = arrays s ++ [live s] ∧
       historicalActivities (archiveEffect s)
       = <[m := length (arrays s)]> (historicalActivities s)
   | None =>
       arrays (archiveEffect s) = arrays s ∧
       historicalActivities (archiveEffect s) = historicalActivities s
   end).
Proof.
  unfold archiveEffect.
  destruct (hasFinalizeEventOccurredRef s) eqn:Href; [|by left].
  destruct (isLoading s) eqn:Hload; [by left|].
  destruct (0 <? length (messages s))%nat; [|by left].
  right. cbn [andb negb].
  destruct (archive_key (last (messages s))); cbn; by rewrite ?Hload.
Qed.

(** X4.  Running the archival effect twice in a row is the same as running it
    once: the first run consumes the flag, so the second does nothing. *)
Theorem archiveEffect_idempotent (s : State) :
  archiveEffect (archiveEffect s) = archiveEffect s.
Proof.
  destruct (archiveEffect_cases s) as [Hsame|(_ & Hcleared & _)].
  - by rewrite !Hsame.
  - by apply archiveEffect_idle.
Qed.

(** *** Runs that never see a finalize payload *)

Lemma step_no_finalize (s : State) (a : Action) :
  no_finalize a = true →
  hasFinalizeEventOccurredRef s = false →
  hasFinalizeEventOccurredRef (step s a) = false ∧
  historicalActivities (step s a) = historicalActivities s.
Proof.
  intros Ha Hs. destruct a as [event|text effort model now|msgs loading|]; cbn [step].
  - rewrite flag_after_tick, Hs. cbn [no_finalize] in Ha.
    apply negb_true_iff in Ha. rewrite Ha. split; [done|].
    apply (historicalActivities_step s (UpdateEvent event)). done.
  - split; [|by apply (historicalActivities_step s (Submit text effort model now))].
    unfold handleSubmit. by destruct (String.eqb (trim text) "").
  - done.
  - by rewrite archiveEffect_idle.
Qed.

(** X5.  From a state whose flag is clear, a run in which no tick holds a
    [finalize_answer] payload with a truthy [type] writes no archive and
    leaves the flag clear, whatever the submissions, message lists and effect
    runs in between. *)
Theorem no_finalize_no_archive (actions : list Action) (s : State) :
  hasFinalizeEventOccurredRef s = false →
  Forall (λ a, no_finalize a = true) actions →
  hasFinalizeEventOccurredRef (run s actions) = false ∧
  historicalActivities (run s actions) = historicalActivities s.
Proof.
  intros Hs Hactions. revert s Hs.
  induction Hactions as [|a actions Ha _ IH]; intros s Hs; cbn [run foldl]; [done|].
  destruct (step_no_finalize s a Ha Hs) as [Hflag Hhist].
  destruct (IH (step s a) Hflag) as [Hflag' Hhist']. split; [done|].
  unfold run in Hhist'. by rewrite Hhist', Hhist.
Qed.


(** A run without a finalize payload: a submission, two ticks, the message
    list with the answer, the effect. *)
Lemma no_finalize_no_archive_witness :
  hasFinalizeEventOccurredRef
    (run initial
       [ Submit "why is the sky blue" "low" "model" 1%N;
         UpdateEvent [("generate_query", JObj [("type", JStr "status")])];
         UpdateEvent [("finalize_answer", JObj [("data", JStr "no type")])];
         Thread [ {| m_type := "ai"; m_content := "scattering"; m_id := Some "42" |} ]
                false;
         Effect ]) = false ∧
  historicalActivities
    (run initial
       [ Submit "why is the sky blue" "low" "model" 1%N;
         UpdateEvent [("generate_query", JObj [("type", JStr "status")])];
         UpdateEvent [("finalize_answer", JObj [("data", JStr "no type")])];
         Thread [ {| m_type := "ai"; m_content := "scattering"; m_id := Some "42" |} ]
                false;
         Effect ]) = historicalActivities initial.
Proof.
  apply no_finalize_no_archive; [reflexivity|]. repeat constructor.
Defined.

(** *** What every reached state satisfies *)

Lemma handleSubmit_keeps_flag_only_when_blank (text effort model : string) (now : N)
    (s : State) :
  hasFinalizeEventOccurredRef (handleSubmit text effort model now s) = true →
  handleSubmit text effort model now s = s.
Proof. unfold handleSubmit. by destruct (String.eqb (trim text) ""). Qed.

Lemma reached_initial : reached initial.
Proof.
  split; [cbn; lia|]. split; [done|]. intros m r Hm.
  unfold initial in Hm. cbn [historicalActivities] in Hm. by rewrite lookup_empty in Hm.
Qed.

Lemma reached_step (s : State) (a : Action) : reached s → reached (step s a).
Proof.
  intros (Halloc & Hflag & Harch).
  destruct (decide (is_effect a = true)) as [Heffect|Hother].
  - destruct a; try discriminate. cbn [step].
    destruct (archiveEffect_cases s)
      as [->|(Href & Hcleared & Htl & _ & _ & _ & Hkey)]; [done|].
    destruct (archive_key (last (messages s))) as [i|]; destruct Hkey as [Harr Hhist].
    + assert (Hold : ∀ r, r < length (arrays s) →
                          array_at (archiveEffect s) r = array_at s r).
      { intros r Hr. unfold array_at. by rewrite Harr, lookup_app_l. }
      split; [rewrite Htl, Harr, length_app; simpl; lia|].
      split; [by rewrite Hcleared|].
      intros m r. rewrite Hhist, Harr, length_app. cbn [length].
      destruct (decide (i = m)) as [->|Hne].
      * rewrite lookup_insert_eq. intros [= <-]. split; [lia|].
        unfold array_at. rewrite Harr, list_lookup_middle by done. by apply Hflag.
      * rewrite lookup_insert_ne by done. intros Hm.
        destruct (Harch m r Hm) as [Hr He]. split; [lia|].
        unfold array_at at 1. rewrite Harr, lookup_app_l by done. exact He.
    + split; [by rewrite Htl, Harr|]. split; [by rewrite Hcleared|].
      intros m r. rewrite Hhist, Harr. intros Hm.
      destruct (Harch m r Hm) as [Hr He]. split; [done|].
      unfold array_at. by rewrite Harr.
  - apply not_true_is_false in Hother.
    split; [by apply timeline_allocated_step|]. split.
    + destruct a as [event|text effort model now|msgs loading|]; cbn [step];
        try discriminate.
      * rewrite flag_after_tick, live_onUpdateEvent.
        intros Hraised. apply orb_true_iff in Hraised as [Hbefore|Htick].
        -- destruct (Hflag Hbefore) as (e & He & Hfinal).
           exists e. split; [apply elem_of_app; by left|done].
        -- destruct (processTick_typed event) as (_ & _ & Hentry).
           destruct (Hentry Htick) as (e & He & Hfinal).
           exists e. split; [apply elem_of_app; by right|done].
      * intros Hraised.
        pose proof (handleSubmit_keeps_flag_only_when_blank _ _ _ _ _ Hraised) as Hsame.
        rewrite Hsame in Hraised |- *. by apply Hflag.
      * exact Hflag.
    + intros m r. rewrite (historicalActivities_step s a Hother). intros Hm.
      destruct (Harch m r Hm) as [Hr He].
      pose proof (length_arrays_step s a). split; [lia|].
      by rewrite array_at_step.
Qed.

Lemma reached_run (actions : list Action) (s : State) :
  reached s → reached (run s actions).
Proof.
  revert s. induction actions as [|a actions IH]; intros s Hs; [done|].
  by apply IH, reached_step.
Qed.

(** X6.  Every archived timeline of a run of the component holds the
    [Finalizing Answer] entry of its run. *)
Theorem archive_holds_finalizing_entry (history : list Action) (m : string)
    (timeline : list ProcessedEvent) :
  archived (run initial history) m = Some timeline →
  ∃ e, e ∈ timeline ∧ sectionType e = "Finalizing" ∧ title e = "Finalizing Answer".
Proof.
  intros Harchived.
  destruct (reached_run history initial reached_initial) as (_ & _ & Harch).
  unfold archived in Harchived.
  destruct (historicalActivities (run initial history) !! m) as [r|] eqn:Hm; [|done].
  injection Harchived as <-. by destruct (Harch m r Hm) as [_ ?].
Qed.

Lemma archive_holds_finalizing_entry_witness :
  ∃ e, e ∈ live (run initial finalized_run) ∧
       sectionType e = "Finalizing" ∧ title e = "Finalizing Answer".
Proof.
  apply (archive_holds_finalizing_entry (finalized_run ++ [Effect]) "42").
  vm_compute. reflexivity.
Defined.

(** X7.  In a run of the component an archive, once written, is never
    removed, and it is left as it is by every tick, submission and change of
    the message list, and by every run of the effect that archives under
    another id. *)
Theorem archives_are_kept (history : list Action) (a : Action) (m : string) :
  (is_Some (archived (run initial history) m) →
   is_Some (archived (step (run initial history) a) m)) ∧
  (is_effect a = false ∨ archive_key (last (messages (run initial history))) ≠ Some m →
   archived (step (run initial history) a) m = archived (run initial history) m).
Proof.
  set (s := run initial history).
  destruct (reached_run history initial reached_initial) as (_ & _ & Harch).
  fold s in Harch.
  assert (Hother : is_effect a = false ∨ archive_key (last (messages s)) ≠ Some m →
                   archived (step s a) m = archived s m).
  { intros Hcase. unfold archived.
    destruct (decide (is_effect a = true)) as [Heffect|Hnot].
    - destruct Hcase as [Hcase|Hkey]; [congruence|].
      destruct a; try discriminate. cbn [step].
      destruct (archiveEffect_cases s) as [->|(_ & _ & _ & _ & _ & _ & Hcases)]; [done|].
      destruct (archive_key (last (messages s))) as [i|];
        destruct Hcases as [Harr Hhist]; rewrite Hhist.
      + rewrite lookup_insert_ne by congruence.
        destruct (historicalActivities s !! m) as [r|] eqn:Hm; [|done]. cbn.
        destruct (Harch m r Hm) as [Hr _].
        unfold array_at. by rewrite Harr, lookup_app_l.
      + destruct (historicalActivities s !! m) as [r|]; [|done]. cbn.
        unfold array_at. by rewrite Harr.
    - apply not_true_is_false in Hnot. rewrite (historicalActivities_step s a Hnot).
      destruct (historicalActivities s !! m) as [r|] eqn:Hm; [|done]. cbn.
      destruct (Harch m r Hm) as [Hr _]. by rewrite array_at_step. }
  split; [|done].
  intros Hsome.
  destruct (decide (is_effect a = false ∨ archive_key (last (messages s)) ≠ Some m))
    as [Hcase|Hwrites]; [by rewrite Hother|].
  assert (Heffect : is_effect a = true).
  { destruct (is_effect a); [done|]. exfalso. apply Hwrites. by left. }
  assert (Hkey : archive_key (last (messages s)) = Some m).
  { destruct (decide (archive_key (last (messages s)) = Some m)); [done|].
    exfalso. apply Hwrites. by right. }
  destruct a; try done. cbn [step].
  unfold archived.
  destruct (archiveEffect_cases s) as [->|(_ & _ & _ & _ & _ & _ & Hcases)]; [done|].
  rewrite Hkey in Hcases. destruct Hcases as [_ ->].
  rewrite lookup_insert_eq. by eexists.
Qed.


(** *** The requests sent *)

Lemma effort_budget_bounds (effort : string) :
  (0 ≤ fst (effort_budget effort) ≤ snd (effort_budget effort))%Z ∧
  (snd (effort_budget effort) ≤ 10)%Z ∧
  (effort ∉ ["low"; "medium"; "high"] → effort_budget effort = (0, 0)%Z).
Proof.
  unfold effort_budget.
  destruct (String.eqb_spec effort "low") as [->|Hlow]; [cbn; split; [lia|split; [lia|]]|].
  { intros H. exfalso. apply H. rewrite !elem_of_cons. tauto. }
  destruct (String.eqb_spec effort "medium") as [->|Hmedium];
    [cbn; split; [lia|split; [lia|]]|].
  { intros H. exfalso. apply H. rewrite !elem_of_cons. tauto. }
  destruct (String.eqb_spec effort "high") as [->|Hhigh];
    [cbn; split; [lia|split; [lia|]]|].
  { intros H. exfalso. apply H. rewrite !elem_of_cons. tauto. }
  cbn. split; [lia|]. split; [lia|done].
Qed.

(** The requests sent by one step: none, or one well-formed request when the
    step is a submission of text that is not blank. *)
Lemma submitted_step (s : State) (a : Action) :
  ∃ sent, submitted (step s a) = submitted s ++ sent ∧
          length sent = length (List.filter dispatches [a]) ∧
          Forall well_formed_request sent.
Proof.
  destruct (decide (dispatches a = true)) as [Hsends|Hsilent].
  - destruct a as [event|text effort model now|msgs loading|]; try discriminate.
    cbn [dispatches] in Hsends. apply negb_true_iff in Hsends.
    cbn [step List.filter dispatches]. rewrite Hsends.
    assert (Hne : trim text ≠ "") by (by destruct (String.eqb_spec (trim text) "")).
    rewrite (handleSubmit_nonblank _ _ _ _ _ Hne). cbn [submitted].
    eexists. split; [done|]. split; [done|].
    constructor; [|constructor].
    destruct (effort_budget_bounds effort) as (Horder & Hmax & Hunknown).
    split; [|split; [|split; [|split]]]; cbn.
    + eexists. split; [apply last_snoc|]. by split.
    + by destruct (effort_budget effort).
    + done.
    + done.
    + intros Heffort. by rewrite (Hunknown Heffort).
  - apply not_true_is_false in Hsilent. cbn [List.filter]. rewrite Hsilent.
    exists []. rewrite app_nil_r. split; [|by split].
    destruct a as [event|text effort model now|msgs loading|]; cbn [step].
    + apply submitted_onUpdateEvent.
    + cbn [dispatches] in Hsilent. apply negb_false_iff in Hsilent.
      unfold handleSubmit. by rewrite Hsilent.
    + done.
    + destruct (archiveEffect_cases s) as [->|(_ & _ & _ & _ & _ & Hsub & _)]; done.
Qed.

(** X8.  Along any run the log of requests only grows, by one request for
    each submission of text that is not blank and by nothing else; every
    request sent ends with the user's message, whose text is not blank, and
    carries the budget of its effort, which is never above ten loops and is
    zero for an effort that is none of [low], [medium], [high]. *)
Theorem requests_follow_submissions (actions : list Action) (s : State) :
  ∃ sent,
    submitted (run s actions) = submitted s ++ sent ∧
    length sent = length (List.filter dispatches actions) ∧
    Forall well_formed_request sent.
Proof.
  revert s. induction actions as [|a actions IH]; intros s.
  - exists []. by rewrite app_nil_r.
  - destruct (submitted_step s a) as (first & Hfirst & Hlen & Hok).
    destruct (IH (step s a)) as (rest & Hrest & Hlen' & Hok').
    exists (first ++ rest). cbn [run foldl]. unfold run in Hrest.
    rewrite Hrest, Hfirst, app_assoc. split; [done|]. split.
    + rewrite length_app, Hlen, Hlen'. cbn [List.filter].
      destruct (dispatches a); cbn [length]; lia.
    + by apply Forall_app.
Qed.

End Runs.

(* ===================================================================== *)
(** ** The grouped view, for any sections *)
(* ===================================================================== *)

Module Groups.
Import Js ActivityTimeline Spec Scenarios Grouping Expand.

(** *** The reduce on any list of events *)

Lemma reduce_app (events more : list ProcessedEvent) (acc : Groups) :
  reduce acc (events ++ more) = reduce acc events ≫= λ acc', reduce acc' more.
Proof.
  revert acc. induction events as [|e events IH]; intros acc; cbn [app reduce]; [done|].
  destruct (group_step acc e); [apply IH|done].
Qed.

Lemma group_step_inherited (acc : Groups) (e : ProcessedEvent) :
  own_keys_ok acc → inherited (sectionType e) = true → group_step acc e = None.
Proof.
  intros [_ Hown] Hinh. unfold group_step, read_group.
  destruct (own_group acc (sectionType e)) as [arr|] eqn:Hk; [|by rewrite Hinh].
  exfalso. assert (Hin : sectionType e ∈ acc.*1).
  { destruct (decide (sectionType e ∈ acc.*1)) as [|Hout]; [done|].
    apply own_group_None in Hout. congruence. }
  rewrite Forall_forall in Hown. specialize (Hown _ Hin). congruence.
Qed.

Lemma reduce_inherited (events : list ProcessedEvent) (acc : Groups) :
  own_keys_ok acc →
  Exists (λ e, inherited (sectionType e) = true) events →
  reduce acc events = None.
Proof.
  intros Hacc Hex. revert acc Hacc.
  induction Hex as [e events He|e events _ IH]; intros acc Hacc; cbn [reduce].
  - by rewrite group_step_inherited.
  - destruct (group_step acc e) as [acc'|] eqn:Hstep; [|done].
    apply IH. by eapply group_step_keys.
Qed.

Lemma groupedEvents_inherited (events : list ProcessedEvent) :
  Exists (λ e, inherited (sectionType e) = true) events → groupedEvents events = None.
Proof. apply reduce_inherited. split; constructor. Qed.

(** X9.  [groupedEvents] throws exactly when some event has a section named
    like a member every object inherits (such as [constructor] or
    [toString]); on every other list of events it returns. *)
Theorem groupedEvents_throws_on_inherited_names (events : list ProcessedEvent) :
  groupedEvents events = None
  ↔ ∃ e, e ∈ events ∧ inherited (sectionType e) = true.
Proof.
  rewrite <- Exists_exists. split.
  - intros Hnone.
    destruct (Exists_dec (λ e, inherited (sectionType e) = true) events) as [|Hnot];
      [done|].
    rewrite groupedEvents_grouping in Hnone; [done|].
    apply Forall_forall. intros e He.
    destruct (inherited (sectionType e)) eqn:Hinh; [|done].
    exfalso. apply Hnot, Exists_exists. by exists e.
  - apply reduce_inherited. split; constructor.
Qed.


Lemma section_nonempty (k : string) (events : list ProcessedEvent) :
  k ∈ sectionType <$> events → section k events ≠ [].
Proof.
  intros Hk Hnil. apply list_elem_of_fmap in Hk as (e & -> & He).
  assert (Hin : e ∈ section (sectionType e) events)
    by (unfold section; by apply list_elem_of_filter).
  rewrite Hnil in Hin. by apply not_elem_of_nil in Hin.
Qed.

(** The grouped view, when [groupedEvents] returns. *)
Lemma groupedEvents_Some (events : list ProcessedEvent) (groups : Groups) :
  groupedEvents events = Some groups → groups = grouping events.
Proof.
  intros Hred. rewrite groupedEvents_grouping in Hred; [congruence|].
  apply Forall_forall. intros e He.
  destruct (inherited (sectionType e)) eqn:Hinh; [|done].
  assert (groupedEvents events = None); [|congruence].
  apply groupedEvents_inherited. apply Exists_exists. by exists e.
Qed.

(** What [Object.entries] lists for a grouped view. *)
Lemma Object_entries_grouped (events : list ProcessedEvent) (groups : Groups) :
  groupedEvents events = Some groups →
  ∀ k group, (k, group) ∈ Object_entries groups
             ↔ k ∈ sectionType <$> events ∧ group = section k events.
Proof.
  intros Hred. pose proof (groupedEvents_Some events groups Hred) as Hgroups.
  intros k group. rewrite Object_entries_perm, Hgroups. unfold grouping.
  rewrite list_elem_of_fmap. split.
  - intros (k' & [= -> ->] & Hk'). split; [by apply elem_of_first_seen|done].
  - intros [Hk ->]. exists k. split; [done|by apply elem_of_first_seen].
Qed.

(** X10.  Whenever [groupedEvents] returns, for any sections at all: the
    listed keys are distinct; a key is listed with a group exactly when it is
    the section of some event, and its group is then the sub-sequence of the
    events of that section, in their order; no group is empty; and the groups
    together hold every event once. *)
Theorem groupedEvents_groups_by_section (events : list ProcessedEvent)
    (groups : Groups) :
  groupedEvents events = Some groups →
  NoDup (Object_keys groups) ∧
  (∀ k group, (k, group) ∈ Object_entries groups
              ↔ k ∈ sectionType <$> events ∧ group = section k events) ∧
  (∀ k group, (k, group) ∈ Object_entries groups → group ≠ []) ∧
  concat (snd <$> Object_entries groups) ≡ₚ events.
Proof.
  intros Hred. pose proof (Object_entries_grouped events groups Hred) as Hlisted.
  split; [by destruct (groupedEvents_keys _ _ Hred)|]. split; [exact Hlisted|]. split.
  - intros k group Hin. apply Hlisted in Hin as [Hk ->]. by apply section_nonempty.
  - rewrite Object_entries_perm. by rewrite (concat_reduce _ _ _ Hred).
Qed.

Lemma groupedEvents_groups_by_section_witness :
  NoDup (Object_keys [("2", [sample_event "2"; sample_event "2"]);
                      ("b", [sample_event "b"]);
                      ("1", [sample_event "1"])]) ∧
  (∀ k group,
     (k, group) ∈ Object_entries [("2", [sample_event "2"; sample_event "2"]);
                                  ("b", [sample_event "b"]);
                                  ("1", [sample_event "1"])]
     ↔ k ∈ sectionType <$> [sample_event "2"; sample_event "b";
                            sample_event "1"; sample_event "2"] ∧
       group = section k [sample_event "2"; sample_event "b";
                          sample_event "1"; sample_event "2"]) ∧
  (∀ k group,
     (k, group) ∈ Object_entries [("2", [sample_event "2"; sample_event "2"]);
                                  ("b", [sample_event "b"]);
                                  ("1", [sample_event "1"])] → group ≠ []) ∧
  concat (snd <$> Object_entries [("2", [sample_event "2"; sample_event "2"]);
                                  ("b", [sample_event "b"]);
                                  ("1", [sample_event "1"])])
  ≡ₚ [sample_event "2"; sample_event "b"; sample_event "1"; sample_event "2"].
Proof.
  apply (groupedEvents_groups_by_section
           [sample_event "2"; sample_event "b"; sample_event "1"; sample_event "2"]).
  reflexivity.
Defined.

(** *** Appending one event *)

Lemma own_group_push_group (acc : Groups) (k k' : string) (e : ProcessedEvent) :
  own_group (push_group acc k e) k'
  = if decide (k' = k) then (λ arr, arr ++ [e]) <$> own_group acc k
    else own_group acc k'.
Proof.
  induction acc as [|[k0 arr] acc IH]; cbn [push_group own_group].
  - by destruct (decide (k' = k)).
  - destruct (String.eqb_spec k0 k) as [->|Hne]; cbn [own_group].
    + destruct (String.eqb_spec k k') as [<-|Hne']; [by rewrite decide_True|].
      by rewrite decide_False by congruence.
    + destruct (String.eqb_spec k0 k') as [<-|Hne']; [by rewrite decide_False|].
      exact IH.
Qed.

Lemma own_group_snoc (acc : Groups) (k k' : string) (arr : list ProcessedEvent) :
  own_group (acc ++ [(k, arr)]) k'
  = match own_group acc k' with
    | Some found => Some found
    | None => if decide (k' = k) then Some arr else None
    end.
Proof.
  induction acc as [|[k0 arr0] acc IH]; cbn [app own_group].
  - destruct (String.eqb_spec k k') as [->|Hne]; [by rewrite decide_True|].
    by rewrite decide_False by congruence.
  - by destruct (String.eqb k0 k').
Qed.

(** X11.  Appending an event to the timeline changes the grouped view in one
    place only: the group of the event's section gets the event at its end (a
    new group holding just the event when the section is new), every other
    group is as before, and the keys already present keep their places. *)
Theorem groupedEvents_append (events : list ProcessedEvent) (e : ProcessedEvent)
    (groups : Groups) :
  groupedEvents events = Some groups →
  inherited (sectionType e) = false →
  ∃ groups',
    groupedEvents (events ++ [e]) = Some groups' ∧
    own_group groups' (sectionType e)
    = Some (default [] (own_group groups (sectionType e)) ++ [e]) ∧
    (∀ k, k ≠ sectionType e → own_group groups' k = own_group groups k) ∧
    groups.*1 `prefix_of` groups'.*1.
Proof.
  intros Hred Hinh. unfold groupedEvents in *.
  rewrite reduce_snoc, Hred. cbn. unfold group_step, read_group.
  destruct (own_group groups (sectionType e)) as [arr|] eqn:Hown.
  - eexists. split; [done|]. split; [|split].
    + by rewrite own_group_push_group, decide_True, Hown.
    + intros k Hk. by rewrite own_group_push_group, decide_False.
    + by rewrite push_group_keys.
  - rewrite Hinh, push_group_new by done.
    eexists. split; [done|]. split; [|split].
    + by rewrite own_group_snoc, Hown, decide_True.
    + intros k Hk. rewrite own_group_snoc, decide_False by done.
      by destruct (own_group groups k).
    + rewrite fmap_app. by eexists.
Qed.

Lemma groupedEvents_append_witness :
  ∃ groups',
    groupedEvents ([sample_event "Querying"; sample_event "Searching"]
                   ++ [sample_event "Querying"]) = Some groups' ∧
    own_group groups' "Querying"
    = Some (default [] (own_group [("Querying", [sample_event "Querying"]);
                                   ("Searching", [sample_event "Searching"])]
                                  "Querying") ++ [sample_event "Querying"]) ∧
    (∀ k, k ≠ "Querying" →
          own_group groups' k
          = own_group [("Querying", [sample_event "Querying"]);
                       ("Searching", [sample_event "Searching"])] k) ∧
    [("Querying", [sample_event "Querying"]);
     ("Searching", [sample_event "Searching"])].*1 `prefix_of` groups'.*1.
Proof.
  apply (groupedEvents_append [sample_event "Querying"; sample_event "Searching"]
           (sample_event "Querying")); reflexivity.
Defined.


(** *** The order of the sections *)

Lemma sorted_insert_index {V : Type} (n : N) (kv : string * V)
    (sorted : list (N * (string * V))) :
  StronglySorted (λ a b, (a.1 ≤ b.1)%N) sorted →
  StronglySorted (λ a b, (a.1 ≤ b.1)%N) (insert_index n kv sorted).
Proof.
  induction 1 as [|[m kv'] rest Hsorted IH Hall]; cbn [insert_index].
  - repeat constructor.
  - destruct (N.ltb_spec n m) as [Hlt|Hge].
    + constructor; [by constructor|]. constructor; [cbn; lia|].
      eapply Forall_impl; [exact Hall|]. intros [m' ?]; cbn. lia.
    + constructor; [exact IH|].
      assert (Hin : ∀ x, x ∈ insert_index n kv rest → x = (n, kv) ∨ x ∈ rest).
      { clear. induction rest as [|[m' kv''] rest IH]; cbn [insert_index]; intros x.
        - rewrite list_elem_of_singleton. by left.
        - destruct (n <? m')%N; rewrite !elem_of_cons; [tauto|].
          intros [->|Hx]; [tauto|]. destruct (IH x Hx); tauto. }
      apply Forall_forall. intros x Hx. destruct (Hin x Hx) as [->|Hrest]; [done|].
      rewrite Forall_forall in Hall. by apply Hall.
Qed.

Lemma sorted_index_entries {V : Type} (o : list (string * V)) :
  StronglySorted (λ a b, (a.1 ≤ b.1)%N) (index_entries o) ∧
  Forall (λ e, array_index e.2.1 = Some e.1) (index_entries o).
Proof.
  induction o as [|kv o [IHs IHk]]; cbn [index_entries]; [by split; constructor|].
  destruct (array_index kv.1) as [n|] eqn:Hn; [|done]. split.
  - by apply sorted_insert_index.
  - clear IHs. induction IHk as [|[m kv'] rest Hm Hrest IH]; cbn [insert_index].
    + by repeat constructor.
    + destruct (n <? m)%N; repeat (constructor; try done).
Qed.

Lemma named_entries_keys {V : Type} (o : list (string * V)) :
  (named_entries o).*1 = filter (λ k, array_index k = None) o.*1.
Proof.
  unfold named_entries. induction o as [|kv o IH]; [done|].
  cbn [List.filter]. rewrite fmap_cons, filter_cons.
  destruct (array_index kv.1) eqn:Hk.
  - by rewrite decide_False by congruence.
  - rewrite decide_True by done. csimpl. by rewrite IH.
Qed.

(** X12.  The sections come on screen in this order: first the sections whose
    name is an array index, and only those, by ascending index, then all other
    sections in the order in which they first occur in the timeline. *)
Theorem sections_order (events : list ProcessedEvent) (groups : Groups) :
  groupedEvents events = Some groups →
  ∃ numbered named,
    Object_keys groups = numbered ++ named ∧
    named = filter (λ k, array_index k = None) (first_seen (sectionType <$> events)) ∧
    Forall (λ k, is_Some (array_index k)) numbered ∧
    StronglySorted (λ a b, ∃ m n, array_index a = Some m ∧ array_index b = Some n
                                  ∧ (m ≤ n)%N) numbered.
Proof.
  intros Hred. pose proof (groupedEvents_Some events groups Hred) as Hgroups.
  exists ((index_entries groups).*2.*1), ((named_entries groups).*1).
  split; [|split; [|split]].
  - unfold Object_keys, Object_entries.
    change (@List.map) with (@fmap list _). by rewrite fmap_app.
  - rewrite named_entries_keys, Hgroups. unfold grouping.
    rewrite <- list_fmap_compose. by rewrite list_fmap_id.
  - destruct (sorted_index_entries groups) as [_ Hkeys].
    rewrite !Forall_fmap. eapply Forall_impl; [exact Hkeys|].
    intros [n kv] Hn. cbn in *. by eexists.
  - destruct (sorted_index_entries groups) as [Hsorted Hkeys].
    induction Hsorted as [|[n kv] rest Hsorted IH Hall]; csimpl; [constructor|].
    apply Forall_cons in Hkeys as [Hn Hkeys]. constructor; [by apply IH|].
    rewrite Forall_forall in Hall, Hkeys.
    apply Forall_forall. intros k Hk.
    apply list_elem_of_fmap in Hk as (kv' & -> & Hk).
    apply list_elem_of_fmap in Hk as ([m kv''] & -> & Hk).
    exists n, m. split; [done|]. split; [exact (Hkeys _ Hk)|exact (Hall _ Hk)].
Qed.

Lemma sections_order_witness :
  ∃ numbered named,
    Object_keys [("b", [sample_event "b"]); ("10", [sample_event "10"]);
                 ("a", [sample_event "a"]); ("9", [sample_event "9"])]
    = numbered ++ named ∧
    named = filter (λ k, array_index k = None)
              (first_seen (sectionType <$> [sample_event "b"; sample_event "10";
                                            sample_event "a"; sample_event "9"])) ∧
    Forall (λ k, is_Some (array_index k)) numbered ∧
    StronglySorted (λ a b, ∃ m n, array_index a = Some m ∧ array_index b = Some n
                                  ∧ (m ≤ n)%N) numbered.
Proof.
  apply (sections_order [sample_event "b"; sample_event "10";
                         sample_event "a"; sample_event "9"]).
  reflexivity.
Defined.

End Groups.

(* ===================================================================== *)
(** ** The rendered timeline *)
(* ===================================================================== *)

Module Screens.
Import Js ActivityTimeline TimelineScreen Spec Scenarios Grouping Expand Groups.

(** *** One entry *)

Lemma render_source_None (source : JsValue) :
  render_source source = None ↔ nullish source = true.
Proof. unfold render_source. by destruct source. Qed.

Lemma renderData_sources (event : ProcessedEvent) (sources : list JsValue) :
  isSources event = true → data event = JArr sources →
  renderData event = SourceLinks <$> mapM render_source sources.
Proof. unfold renderData. by intros -> ->. Qed.

Lemma renderData_throws (event : ProcessedEvent) :
  renderData event = None →
  isSources event = true ∧
  ∃ sources, data event = JArr sources ∧ mapM render_source sources = None.
Proof.
  unfold renderData. cbv zeta.
  destruct (isSources event); cbn [andb].
  - destruct (data event) as [| | | | |sources|props]; cbn [isArray typeof_string];
      try done; try (by destruct (truthy _ && _)).
    cbn [elements]. rewrite fmap_None. intros Hnone. split; [done|]. by exists sources.
  - destruct (typeof_string (data event)); [done|].
    by destruct (truthy (data event) && _).
Qed.

(** X13.  Building the body of an entry throws in one case only: the entry is
    flagged as a source list, its data is an array, and some element of the
    array is [null] or [undefined]; for every other entry the code returns its
    elements. *)
Theorem renderData_throws_on_null_source (event : ProcessedEvent) :
  renderData event = None
  ↔ isSources event = true ∧
    ∃ sources, data event = JArr sources ∧ ∃ x, x ∈ sources ∧ nullish x = true.
Proof.
  split.
  - intros (Hflag & sources & Hdata & Hnone)%renderData_throws.
    apply mapM_None, Exists_exists in Hnone as (x & Hx & Hnone).
    split; [done|]. exists sources. split; [done|].
    exists x. by rewrite <- render_source_None.
  - intros (Hflag & sources & Hdata & x & Hx & Hnull).
    rewrite (renderData_sources event sources Hflag Hdata).
    apply fmap_None, mapM_None, Exists_exists.
    exists x. by rewrite render_source_None.
Qed.



Lemma renderEntry_None (event : ProcessedEvent) :
  renderEntry event = None ↔ renderData event = None.
Proof. unfold renderEntry. by destruct (renderData event). Qed.

Lemma mapM_renderEntry_titles (events : list ProcessedEvent) (entries : list EntryView) :
  mapM renderEntry events = Some entries →
  entry_title <$> entries = title <$> events.
Proof.
  intros H. apply mapM_Some in H.
  induction H as [|event entry events entries Hentry _ IH]; [done|].
  csimpl. rewrite IH. f_equal.
  unfold renderEntry in Hentry. destruct (renderData event); [|done].
  by injection Hentry as <-.
Qed.

(** *** One section *)

Lemma renderSection_Some (es : gmap string bool) (k : string)
    (events : list ProcessedEvent) (sec : SectionView) :
  renderSection es (k, events) = Some sec →
  name sec = k ∧ count sec = length events ∧ icon sec = getSectionIcon k ∧
  chevron_up sec = isExpanded es k ∧
  body sec = if isExpanded es k then mapM renderEntry events else None.
Proof.
  unfold renderSection. cbn [fst snd].
  destruct (isExpanded es k).
  - destruct (mapM renderEntry events) as [entries|]; [|done]. by intros [= <-].
  - by intros [= <-].
Qed.

Lemma renderSection_None (es : gmap string bool) (k : string)
    (events : list ProcessedEvent) :
  renderSection es (k, events) = None
  ↔ isExpanded es k = true ∧ ∃ e, e ∈ events ∧ renderData e = None.
Proof.
  unfold renderSection. cbn [fst snd].
  destruct (isExpanded es k).
  - destruct (mapM renderEntry events) as [entries|] eqn:Hm.
    + split; [done|]. intros (_ & e & He & Hnone).
      assert (mapM renderEntry events = None); [|congruence].
      apply mapM_None, Exists_exists. exists e. by rewrite renderEntry_None.
    + split; [|done]. intros _. split; [done|].
      apply mapM_None, Exists_exists in Hm as (e & He & Hnone).
      exists e. by rewrite <- renderEntry_None.
  - split; [done|]. by intros [? _].
Qed.

(** *** The screen *)

Lemma length_concat_sum {A : Type} (l : list (list A)) :
  length (concat l) = sum_list (length <$> l).
Proof. induction l as [|x l IH]; csimpl; [done|]. by rewrite length_app, IH. Qed.

Lemma renderTimeline_nonempty (events : list ProcessedEvent) (loading : bool)
    (es : gmap string bool) (groups : Groups) :
  groupedEvents events = Some groups → events ≠ [] →
  renderTimeline events loading es
  = (λ sections, Timeline sections loading)
      <$> mapM (renderSection es) (Object_entries groups).
Proof.
  intros Hred Hne. unfold renderTimeline. rewrite Hred.
  destruct events as [|e events]; [done|]. cbn [length Nat.eqb].
  rewrite !andb_false_r. by destruct (mapM _ _).
Qed.

(** X14.  The component shows a placeholder exactly when the list of events
    is empty: [Processing] while loading and [No activity] otherwise; with
    events to show it never shows a placeholder, and the
    [Agent is thinking...] line is shown exactly while loading. *)
Theorem placeholder_iff_no_events (events : list ProcessedEvent) (loading : bool)
    (es : gmap string bool) (screen : Screen) :
  renderTimeline events loading es = Some screen →
  (events = [] → screen = if loading then Processing else NoActivity) ∧
  (events ≠ [] → ∃ sections, screen = Timeline sections loading ∧ sections ≠ []).
Proof.
  intros Hscreen. split.
  - intros ->. cbn in Hscreen. destruct loading; by injection Hscreen as <-.
  - intros Hne.
    destruct (groupedEvents events) as [groups|] eqn:Hred;
      [|unfold renderTimeline in Hscreen; by rewrite Hred in Hscreen].
    rewrite (renderTimeline_nonempty events loading es groups Hred Hne) in Hscreen.
    destruct (mapM (renderSection es) (Object_entries groups)) as [sections|] eqn:Hm;
      [|done].
    injection Hscreen as <-. exists sections. split; [done|].
    intros ->. apply length_mapM in Hm.
    destruct events as [|e events]; [done|].
    assert (Hin : (sectionType e, section (sectionType e) (e :: events))
                  ∈ Object_entries groups).
    { apply (Object_entries_grouped _ _ Hred). split; [|done].
      apply list_elem_of_fmap. exists e. split; [done|]. apply elem_of_cons. by left. }
    destruct (Object_entries groups); [by apply not_elem_of_nil in Hin|done].
Qed.


Lemma placeholder_iff_no_events_witness :
  ([sample_event "Querying"] = [] →
   Timeline [ {| icon := TextSearch; name := "Querying"; count := 1;
                 chevron_up := false; body := None |} ] true
   = if true then Processing else NoActivity) ∧
  ([sample_event "Querying"] ≠ [] →
   ∃ sections,
     Timeline [ {| icon := TextSearch; name := "Querying"; count := 1;
                   chevron_up := false; body := None |} ] true
     = Timeline sections true ∧ sections ≠ []).
Proof.
  apply (placeholder_iff_no_events [sample_event "Querying"] true ∅). reflexivity.
Defined.

(** The sections of a screen, in the order of [Object.entries]. *)
Lemma sections_of_entries (es : gmap string bool)
    (groups : list (string * list ProcessedEvent)) (sections : list SectionView) :
  mapM (renderSection es) groups = Some sections →
  Forall2 (λ group sec,
             name sec = fst group ∧ count sec = length (snd group) ∧
             icon sec = getSectionIcon (fst group) ∧
             chevron_up sec = isExpanded es (fst group) ∧
             body sec = if isExpanded es (fst group)
                        then mapM renderEntry (snd group) else None)
          groups sections.
Proof.
  intros H. apply mapM_Some in H.
  eapply Forall2_impl; [exact H|]. intros [k events] sec. apply renderSection_Some.
Qed.

(** X15.  When the timeline is shown, its section headers are the keys of
    the grouped view in their order; each header carries the number of events
    of its section, and these numbers add up to the number of events; the
    chevron is up exactly when the section reads expanded; and the body of a
    section is rendered exactly then, with the titles of the events of the
    section in their order. *)
Theorem timeline_headers (events : list ProcessedEvent) (loading : bool)
    (es : gmap string bool) (sections : list SectionView) (thinking : bool) :
  renderTimeline events loading es = Some (Timeline sections thinking) →
  ∃ groups,
    groupedEvents events = Some groups ∧
    name <$> sections = Object_keys groups ∧
    sum_list (count <$> sections) = length events ∧
    Forall (λ sec,
              count sec = length (section (name sec) events) ∧
              icon sec = getSectionIcon (name sec) ∧
              chevron_up sec = isExpanded es (name sec) ∧
              (chevron_up sec = false → body sec = None) ∧
              (chevron_up sec = true →
               ∃ entries, body sec = Some entries ∧
                          entry_title <$> entries
                          = title <$> section (name sec) events))
           sections.
Proof.
  intros Hscreen.
  destruct (groupedEvents events) as [groups|] eqn:Hred;
    [|unfold renderTimeline in Hscreen; by rewrite Hred in Hscreen].
  destruct (decide (events = [])) as [->|Hne]; [by destruct loading|].
  rewrite (renderTimeline_nonempty events loading es groups Hred Hne) in Hscreen.
  destruct (mapM (renderSection es) (Object_entries groups)) as [sections'|] eqn:Hm;
    [|done].
  injection Hscreen as -> _.
  pose proof (sections_of_entries es _ _ Hm) as Hall.
  pose proof (Object_entries_grouped events groups Hred) as Hlisted.
  exists groups. split; [done|]. split; [|split].
  - unfold Object_keys.
    change (List.map fst) with (fmap (M := list) (@fst string (list ProcessedEvent))).
    clear Hm Hlisted.
    induction Hall as [|group sec gs secs (Hname & _) _ IH]; [done|].
    csimpl. by rewrite IH, Hname.
  - assert (Hcounts : count <$> sections = length <$> (snd <$> Object_entries groups)).
    { clear Hm Hlisted. induction Hall as [|group sec gs secs (_ & Hcount & _) _ IH];
        [done|]. csimpl. by rewrite IH, Hcount. }
    rewrite Hcounts, <- length_concat_sum, Object_entries_perm.
    by rewrite (concat_reduce events [] groups Hred).
  - apply Forall_forall. intros sec Hsec.
    apply list_elem_of_lookup in Hsec as [i Hi].
    destruct (Forall2_lookup_r _ _ _ _ _ Hall Hi)
      as ([k group] & Hin%list_elem_of_lookup_2
          & Hname & Hcount & Hicon & Hchevron & Hbody).
    cbn [fst snd] in *. apply Hlisted in Hin as [_ ->].
    rewrite Hname. split; [done|]. split; [done|]. split; [done|].
    rewrite Hchevron, Hbody.
    destruct (isExpanded es k) eqn:Hopen; (split; [done|]); [intros _|done].
    destruct (mapM renderEntry (section k events)) as [entries|] eqn:Hentries.
    + exists entries. split; [done|]. by apply mapM_renderEntry_titles.
    + exfalso. apply mapM_Some in Hm.
      assert (Hnone : renderSection es (k, section k events) = None).
      { apply renderSection_None. split; [done|].
        apply mapM_None, Exists_exists in Hentries as (e & He & Hnone).
        exists e. by rewrite <- renderEntry_None. }
      assert (Hk : (k, section k events) ∈ Object_entries groups).
      { apply Hlisted. split; [|done].
        destruct (decide (k ∈ sectionType <$> events)) as [|Hout]; [done|].
        rewrite (section_absent k events Hout) in Hentries. done. }
      apply list_elem_of_lookup in Hk as [j Hj].
      destruct (Forall2_lookup_l _ _ _ _ _ Hm Hj) as (sec' & _ & Hsec'). congruence.
Qed.


(** For a list of events that [groupedEvents] accepts. *)
Lemma renderTimeline_grouped (events : list ProcessedEvent) (loading : bool)
    (es : gmap string bool) (groups : Groups) :
  groupedEvents events = Some groups →
  renderTimeline events loading es = None
  ↔ ∃ e, e ∈ events ∧ isExpanded es (sectionType e) = true ∧ renderData e = None.
Proof.
  intros Hred.
  pose proof (Object_entries_grouped events _ Hred) as Hlisted.
  destruct (decide (events = [])) as [->|Hne].
  { split; [by destruct loading|]. intros (e & He & _). by apply not_elem_of_nil in He. }
  rewrite (renderTimeline_nonempty events loading es _ Hred Hne).
  destruct (mapM (renderSection es) (Object_entries groups)) as [sections|] eqn:Hm.
  - split; [done|]. intros (e & He & Hopen & Hnone). exfalso.
    apply mapM_Some in Hm.
    assert (Hk : (sectionType e, section (sectionType e) events)
                 ∈ Object_entries groups).
    { apply Hlisted. split; [|done]. apply list_elem_of_fmap. by exists e. }
    apply list_elem_of_lookup in Hk as [j Hj].
    destruct (Forall2_lookup_l _ _ _ _ _ Hm Hj) as (sec & _ & Hsec).
    assert (Hthrows : renderSection es (sectionType e, section (sectionType e) events)
                      = None); [|congruence].
    apply renderSection_None. split; [done|]. exists e. split; [|done].
    unfold section. by apply list_elem_of_filter.
  - split; [|done]. intros _.
    apply mapM_None, Exists_exists in Hm as ([k group] & Hin & Hnone).
    apply Hlisted in Hin as [_ ->].
    apply renderSection_None in Hnone as (Hopen & e & He & Hdata).
    unfold section in He. apply list_elem_of_filter in He as [<- He].
    by exists e.
Qed.

(** X16.  The code of the component throws in exactly two cases: an event
    names a section that [Object.prototype] holds, or building the body of an
    entry throws in a section that reads expanded.  An entry of a collapsed
    section is never looked at. *)
Theorem renderTimeline_throws_iff (events : list ProcessedEvent) (loading : bool)
    (es : gmap string bool) :
  renderTimeline events loading es = None
  ↔ (∃ e, e ∈ events ∧ inherited (sectionType e) = true) ∨
    (∃ e, e ∈ events ∧ isExpanded es (sectionType e) = true ∧ renderData e = None).
Proof.
  destruct (decide (Exists (λ e, inherited (sectionType e) = true) events))
    as [Hinh|Hplain].
  - split; [|intros _; unfold renderTimeline;
             by rewrite (groupedEvents_inherited events Hinh)].
    intros _. left. by apply Exists_exists in Hinh.
  - assert (Hred : groupedEvents events = Some (grouping events)).
    { apply groupedEvents_grouping, Forall_forall. intros e He.
      destruct (inherited (sectionType e)) eqn:Hin; [|done].
      destruct Hplain. apply Exists_exists. by exists e. }
    rewrite (renderTimeline_grouped events loading es _ Hred).
    split; [by right|]. intros [(e & He & Hin)|H]; [|done].
    destruct Hplain. apply Exists_exists. by exists e.
Qed.


(** X17.  The first render leaves nothing hidden: once the component has
    rendered a list of events from its initial state, every section reads
    expanded, and the screen for these events shows every section with its
    chevron up and one entry per event of the section, the entries of all
    sections adding up to the events, provided the body of no entry throws. *)
Theorem first_render_shows_every_entry (events : list ProcessedEvent) (loading : bool)
    (v : View) (log : list string) :
  events ≠ [] →
  Forall (λ e, renderData e ≠ None) events →
  ui_step initial_view (Render events) = Some (v, log) →
  (∀ e, e ∈ events → isExpanded (expanded v) (sectionType e) = true) ∧
  ∃ sections,
    renderTimeline events loading (expanded v) = Some (Timeline sections loading) ∧
    Forall (λ sec, chevron_up sec = true ∧
                   ∃ entries, body sec = Some entries ∧ length entries = count sec)
           sections ∧
    sum_list (count <$> sections) = length events.
Proof.
  intros Hne Hdata Hstep. cbn [ui_step] in Hstep.
  destruct (groupedEvents events) as [groups|] eqn:Hred; [|done].
  injection Hstep as <- <-. cbn [expanded initial_view].
  destruct (groupedEvents_keys _ _ Hred) as [_ Hown].
  pose proof (Object_entries_grouped events groups Hred) as Hlisted.
  assert (Hkeys : ∀ k, k ∈ sectionType <$> events → k ∈ Object_keys groups).
  { intros k Hk. unfold Object_keys. apply list_elem_of_In, in_map_iff.
    exists (k, section k events). split; [done|].
    apply list_elem_of_In, Hlisted. by split. }
  assert (Hopen : ∀ k, k ∈ sectionType <$> events
                       → isExpanded (autoExpand (Object_keys groups) ∅) k = true).
  { intros k Hk. unfold isExpanded, read_flag.
    rewrite lookup_autoExpand, lookup_empty.
    rewrite Forall_forall in Hown.
    destruct (decide (k ∈ Object_keys groups ∧ inherited k = false)) as [|Hno]; [done|].
    destruct Hno. split; [by apply Hkeys|]. by apply Hown, Hkeys. }
  split.
  { intros e He. apply Hopen, list_elem_of_fmap. by exists e. }
  rewrite (renderTimeline_nonempty events loading _ groups Hred Hne).
  destruct (mapM (renderSection (autoExpand (Object_keys groups) ∅))
              (Object_entries groups)) as [sections|] eqn:Hm.
  - exists sections. split; [done|].
    pose proof (sections_of_entries _ _ _ Hm) as Hall. split.
    + apply Forall_forall. intros sec Hsec.
      apply list_elem_of_lookup in Hsec as [i Hi].
      destruct (Forall2_lookup_r _ _ _ _ _ Hall Hi)
        as ([k group] & Hin%list_elem_of_lookup_2
            & Hname & Hcount & _ & Hchevron & Hbody).
      cbn [fst snd] in *. apply Hlisted in Hin as [Hk ->].
      rewrite (Hopen k Hk) in Hchevron, Hbody. split; [done|].
      destruct (mapM renderEntry (section k events)) as [entries|] eqn:Hentries.
      * exists entries. split; [done|]. rewrite Hcount.
        apply length_mapM in Hentries. done.
      * exfalso. apply mapM_Some in Hm.
        assert (Hk' : (k, section k events) ∈ Object_entries groups)
          by (by apply Hlisted).
        apply list_elem_of_lookup in Hk' as [j Hj].
        destruct (Forall2_lookup_l _ _ _ _ _ Hm Hj) as (sec' & _ & Hsec').
        assert (renderSection (autoExpand (Object_keys groups) ∅) (k, section k events)
                = None); [|congruence].
        apply renderSection_None. split; [by apply Hopen|].
        apply mapM_None, Exists_exists in Hentries as (e & He & Hnone).
        exists e. by rewrite <- renderEntry_None.
    + assert (Hcounts : count <$> sections
                        = length <$> (snd <$> Object_entries groups)).
      { clear Hm Hlisted.
        induction Hall as [|group sec gs secs (_ & Hcount & _) _ IH]; [done|].
        csimpl. by rewrite IH, Hcount. }
      rewrite Hcounts, <- length_concat_sum, Object_entries_perm.
      by rewrite (concat_reduce events [] groups Hred).
  - exfalso.
    apply mapM_None, Exists_exists in Hm as ([k group] & Hin & Hnone).
    apply Hlisted in Hin as [_ ->].
    apply renderSection_None in Hnone as (_ & e & He & Hnone).
    unfold section in He. apply list_elem_of_filter in He as [_ He].
    rewrite Forall_forall in Hdata. by apply (Hdata e He).
Qed.

Lemma first_render_shows_every_entry_witness :
  let events := [sample_event "Querying"; sample_event "Coding"; sample_event "Querying"] in
  let v := {| expanded := <["Coding" := true]> (<["Querying" := true]> ∅);
              shown := ["Querying"; "Coding"] |} in
  (∀ e, e ∈ events → isExpanded (expanded v) (sectionType e) = true) ∧
  ∃ sections,
    renderTimeline events false (expanded v) = Some (Timeline sections false) ∧
    Forall (λ sec, chevron_up sec = true ∧
                   ∃ entries, body sec = Some entries ∧ length entries = count sec)
           sections ∧
    sum_list (count <$> sections) = length events.
Proof.
  intros events v.
  apply (first_render_shows_every_entry events false v ["Querying"; "Coding"]).
  - done.
  - repeat constructor; by vm_compute.
  - vm_compute. reflexivity.
Defined.


Lemma timeline_headers_witness :
  let events := [sample_event "Querying"; sample_event "Coding"; sample_event "Querying"] in
  let es : gmap string bool := {["Coding" := true]} in
  let sections :=
    [ {| icon := TextSearch; name := "Querying"; count := 2; chevron_up := false;
         body := None |};
      {| icon := Code2; name := "Coding"; count := 1; chevron_up := true;
         body := mapM renderEntry [sample_event "Coding"] |} ] in
  ∃ groups,
    groupedEvents events = Some groups ∧
    name <$> sections = Object_keys groups ∧
    sum_list (count <$> sections) = length events ∧
    Forall (λ sec,
              count sec = length (section (name sec) events) ∧
              icon sec = getSectionIcon (name sec) ∧
              chevron_up sec = isExpanded es (name sec) ∧
              (chevron_up sec = false → body sec = None) ∧
              (chevron_up sec = true →
               ∃ entries, body sec = Some entries ∧
                          entry_title <$> entries
                          = title <$> section (name sec) events))
           sections.
Proof.
  intros events es sections.
  apply (timeline_headers events true es sections true). vm_compute. reflexivity.
Defined.

End Screens.

(* ===================================================================== *)
(** ** Sessions of renders and clicks *)
(* ===================================================================== *)

Module Sessions.
Import Js ActivityTimeline Spec Notions Scenarios Grouping Expand.

(** The flag of a section along a session that starts in a view whose headers
    all have a flag: a flag of the start is flipped by every click on its
    section; a section with no flag at the start gets [true] at the render
    that queues its default, and is flipped by every click from there. *)
Lemma flags_follow_clicks (actions : list UiAction) (v0 v : View) (log : list string)
    (k : string) :
  Forall (λ c, is_Some (expanded v0 !! c)) (shown v0) →
  ui_run v0 actions = Some (v, log) →
  expanded v !! k
  = match expanded v0 !! k with
    | Some b => Some (xorb b (Nat.odd (clicks k actions)))
    | None => if decide (k ∈ log) then Some (Nat.even (clicks k actions)) else None
    end.
Proof.
  revert v0 v log. induction actions as [|a rest IH]; intros v0 v log Hshown Hrun.
  - injection Hrun as <- <-. cbn [clicks]. destruct (expanded v0 !! k) as [b|].
    + by rewrite xorb_false_r.
    + destruct (decide (k ∈ [])) as [Hin|]; [by apply not_elem_of_nil in Hin|done].
  - cbn [ui_run] in Hrun.
    destruct (ui_step v0 a) as [[v1 new]|] eqn:Hstep; [|done].
    destruct (ui_run v1 rest) as [[v2 log']|] eqn:Hrest; [|done].
    injection Hrun as <- <-.
    assert (Hshown1 : Forall (λ c, is_Some (expanded v1 !! c)) (shown v1)).
    { assert (Hok : view_ok v0 []) by (split; [done|split; constructor]).
      by destruct (ui_step_ok _ _ _ _ _ Hstep Hok) as [? _]. }
    rewrite (IH v1 v2 log' Hshown1 Hrest).
    destruct a as [events|c]; cbn [ui_step clicks] in *.
    + destruct (groupedEvents events) as [groups|] eqn:Hred; [|done].
      injection Hstep as <- <-. cbn [expanded].
      rewrite lookup_autoExpand.
      destruct (expanded v0 !! k) as [b|] eqn:Hk; [done|].
      destruct (decide (k ∈ Object_keys groups ∧ inherited k = false)) as [[Hin Hinh]|Hno].
      * rewrite decide_True.
        { rewrite <- Nat.negb_odd. by destruct (Nat.odd (clicks k rest)). }
        apply elem_of_app. left. by apply elem_of_pendingDefaults.
      * destruct (decide (k ∈ log')) as [Hlog|Hlog].
        { rewrite decide_True; [done|]. apply elem_of_app. by right. }
        rewrite decide_False; [done|]. intros [Hnew|?]%elem_of_app; [|done].
        apply elem_of_pendingDefaults in Hnew as (? & _ & ?). by apply Hno.
    + destruct (bool_decide (c ∈ shown v0)) eqn:Hc; [|done].
      apply bool_decide_eq_true in Hc.
      injection Hstep as <- <-. cbn [expanded app].
      rewrite Forall_forall in Hshown. destruct (Hshown c Hc) as [b Hb].
      destruct (String.eqb_spec c k) as [->|Hne].
      * unfold toggleSection at 1. rewrite lookup_insert_eq.
        unfold read_flag. rewrite Hb. cbn [flag_truthy].
        rewrite Nat.odd_succ, <- Nat.negb_odd.
        by destruct b, (Nat.odd (clicks k rest)).
      * unfold toggleSection. by rewrite lookup_insert_ne.
Qed.

(** X18.  From the initial state of the component, a section has a flag
    exactly when a render has queued its default, and the flag then tells
    whether the number of clicks on its header is even; so every section on
    screen reads expanded exactly when it was clicked an even number of
    times. *)
Theorem expanded_iff_even_clicks (actions : list UiAction) (v : View) (log : list string) :
  ui_run initial_view actions = Some (v, log) →
  (∀ k, expanded v !! k
        = if decide (k ∈ log) then Some (Nat.even (clicks k actions)) else None) ∧
  (∀ k, k ∈ shown v → isExpanded (expanded v) k = Nat.even (clicks k actions)).
Proof.
  intros Hrun.
  assert (Hflags : ∀ k, expanded v !! k
                        = if decide (k ∈ log) then Some (Nat.even (clicks k actions))
                          else None).
  { intros k.
    rewrite (flags_follow_clicks actions initial_view v log k); [|constructor|done].
    cbn [initial_view expanded]. by rewrite lookup_empty. }
  split; [done|]. intros k Hk.
  assert (Hok : view_ok initial_view []) by (split; [constructor|split; constructor]).
  destruct (ui_run_ok _ _ _ _ _ Hrun Hok) as [Hshown _].
  rewrite Forall_forall in Hshown. destruct (Hshown k Hk) as [b Hb].
  unfold isExpanded, read_flag. rewrite Hb. cbn [flag_truthy].
  rewrite Hflags in Hb. destruct (decide (k ∈ log)); congruence.
Qed.

Lemma expanded_iff_even_clicks_witness :
  (∀ k, expanded sample_view !! k
        = if decide (k ∈ ["Querying"; "Searching"])
          then Some (Nat.even (clicks k sample_session)) else None) ∧
  (∀ k, k ∈ shown sample_view
        → isExpanded (expanded sample_view) k = Nat.even (clicks k sample_session)).
Proof.
  apply (expanded_iff_even_clicks sample_session sample_view ["Querying"; "Searching"]).
  vm_compute. reflexivity.
Defined.

End Sessions.

(* ===================================================================== *)
(** ** The icons of the headers *)
(* ===================================================================== *)

Module Icons.
Import Js ActivityTimeline App TimelineScreen Spec Notions Grouping.

(** X19.  In the timeline that the app feeds to the component, the icon of a
    header tells the section: two entries have the same icon only when they
    are of the same section, and the generic icon is the one of [General]. *)
Theorem icons_tell_sections (actions : list Action) :
  let entries := live (run initial actions) in
  Forall (λ e,
            (getSectionIcon (sectionType e) = Activity ↔ sectionType e = "General") ∧
            Forall (λ e', getSectionIcon (sectionType e) = getSectionIcon (sectionType e')
                          → sectionType e = sectionType e') entries)
         entries.
Proof.
  intros entries.
  assert (Hcat : Forall (λ e, sectionType e ∈ categories) entries).
  { apply live_run_categories. unfold live, initial, array_at; cbn. constructor. }
  assert (Hicon : ∀ c, c ∈ categories →
            (getSectionIcon c = Activity ↔ c = "General") ∧
            ∀ c', c' ∈ categories → getSectionIcon c = getSectionIcon c' → c = c').
  { intros c Hc. unfold categories in Hc.
    repeat (apply elem_of_cons in Hc as [->|Hc]);
      try (by apply not_elem_of_nil in Hc);
      (split; [by split|]);
      intros c' Hc'; unfold categories in Hc';
      repeat (apply elem_of_cons in Hc' as [->|Hc']);
      try (by apply not_elem_of_nil in Hc'); by vm_compute. }
  rewrite Forall_forall in Hcat.
  apply Forall_forall. intros e He. destruct (Hicon _ (Hcat e He)) as [Hgeneric Hinj].
  split; [exact Hgeneric|].
  apply Forall_forall. intros e' He'. apply Hinj. by apply Hcat.
Qed.

End Icons.

(* ===================================================================== *)
(** ** The default title *)
(* ===================================================================== *)

Module Titles.
Import Js ActivityTimeline App Spec Notions.

Lemma length_replace_underscores (s : string) :
  String.length (replace_underscores s) = String.length s.
Proof. induction s as [|c s IH]; cbn; [done|]. by rewrite IH. Qed.

Lemma upper_char_not_underscore (c : ascii) : c ≠ "_"%char → upper_char c ≠ "_"%char.
Proof.
  intros Hc. unfold upper_char.
  destruct ((97 <=? nat_of_ascii c)%nat && (nat_of_ascii c <=? 122)%nat) eqn:Hrange;
    [|done].
  apply andb_prop in Hrange as [Hlo%Nat.leb_le Hhi%Nat.leb_le].
  intros Heq. apply (f_equal nat_of_ascii) in Heq.
  rewrite nat_ascii_embedding in Heq by lia.
  change (nat_of_ascii "_") with 95%nat in Heq. lia.
Qed.

Lemma upper_char_idempotent (c : ascii) : upper_char (upper_char c) = upper_char c.
Proof.
  assert (Hout : ∀ d, ((97 <=? nat_of_ascii d)%nat && (nat_of_ascii d <=? 122)%nat) = false
                      → upper_char d = d).
  { intros d Hd. unfold upper_char. by rewrite Hd. }
  destruct ((97 <=? nat_of_ascii c)%nat && (nat_of_ascii c <=? 122)%nat) eqn:Hrange;
    [|by rewrite !(Hout c Hrange)].
  apply andb_prop in Hrange as [Hlo%Nat.leb_le Hhi%Nat.leb_le].
  apply Hout. unfold upper_char.
  assert (Hc : ((97 <=? nat_of_ascii c)%nat && (nat_of_ascii c <=? 122)%nat) = true).
  { apply andb_true_intro. split; by apply Nat.leb_le. }
  rewrite Hc, nat_ascii_embedding by lia.
  apply andb_false_intro1, Nat.leb_gt. lia.
Qed.

Lemma upper_char_ascii (c : ascii) : is_ascii c = true → is_ascii (upper_char c) = true.
Proof.
  unfold is_ascii, upper_char. intros Hc%Nat.ltb_lt.
  destruct ((97 <=? nat_of_ascii c)%nat && (nat_of_ascii c <=? 122)%nat) eqn:Hrange;
    [|by apply Nat.ltb_lt].
  apply andb_prop in Hrange as [Hlo%Nat.leb_le Hhi%Nat.leb_le].
  rewrite nat_ascii_embedding by lia. apply Nat.ltb_lt. lia.
Qed.

Lemma replace_underscores_ascii (s : string) :
  ascii_text s = true → ascii_text (replace_underscores s) = true.
Proof.
  unfold ascii_text. induction s as [|c s IH]; cbn; [done|].
  intros [Hc Hs]%andb_prop. rewrite (IH Hs), andb_true_r.
  by destruct (Ascii.eqb_spec c "_").
Qed.

(** X20.  For a node name made of ASCII characters, the default title of an
    entry has the length of the name, holds no underscore and is made of ASCII
    characters; making a title from a title changes nothing. *)
Theorem default_title_shape (nodeName : string) :
  ascii_text nodeName = true →
  String.length (humanized nodeName) = String.length nodeName ∧
  Forall (λ c, c ≠ "_"%char) (list_ascii_of_string (humanized nodeName)) ∧
  ascii_text (humanized nodeName) = true ∧
  humanized (humanized nodeName) = humanized nodeName.
Proof.
  intros Hascii. unfold humanized.
  assert (Hclean : ∀ s, Forall (λ c, c ≠ "_"%char)
                          (list_ascii_of_string (replace_underscores s))).
  { induction s as [|c s IH]; cbn; constructor; [|done].
    destruct (Ascii.eqb_spec c "_"); [done|done]. }
  assert (Hfixed : ∀ s, Forall (λ c, c ≠ "_"%char) (list_ascii_of_string s)
                        → replace_underscores s = s).
  { induction s as [|c s IH]; cbn; [done|]. intros [Hc Hs]%Forall_cons.
    rewrite (IH Hs). by destruct (Ascii.eqb_spec c "_"). }
  assert (Hcap : Forall (λ c, c ≠ "_"%char)
                   (list_ascii_of_string (capitalize (replace_underscores nodeName)))).
  { specialize (Hclean nodeName).
    destruct (replace_underscores nodeName) as [|c rest]; cbn in *; [done|].
    apply Forall_cons in Hclean as [Hc Hrest].
    constructor; [by apply upper_char_not_underscore|done]. }
  split; [|split; [|split]].
  - rewrite <- (length_replace_underscores nodeName).
    by destruct (replace_underscores nodeName).
  - exact Hcap.
  - apply replace_underscores_ascii in Hascii. unfold ascii_text in *.
    destruct (replace_underscores nodeName) as [|c rest]; [done|].
    cbn [capitalize list_ascii_of_string forallb] in *.
    apply andb_prop in Hascii as [Hc Hrest].
    by rewrite (upper_char_ascii c Hc), Hrest.
  - rewrite (Hfixed _ Hcap).
    destruct (replace_underscores nodeName) as [|c rest]; cbn; [done|].
    by rewrite upper_char_idempotent.
Qed.

Lemma default_title_shape_witness :
  String.length (humanized "my_custom_node") = String.length "my_custom_node" ∧
  Forall (λ c, c ≠ "_"%char) (list_ascii_of_string (humanized "my_custom_node")) ∧
  ascii_text (humanized "my_custom_node") = true ∧
  humanized (humanized "my_custom_node") = humanized "my_custom_node".
Proof. apply (default_title_shape "my_custom_node"). reflexivity. Defined.

End Titles.

(* ===================================================================== *)
(** ** Submissions *)
(* ===================================================================== *)

Module Submissions.
Import Js ActivityTimeline App Spec Notions Archive.

(** X21.  A submission of text made of ASCII characters is dropped exactly
    when the text consists of white space only (tab, line feed, vertical tab,
    form feed, carriage return, space): then nothing changes; otherwise one
    request is handed to the thread, whose last message carries the text as it
    was typed. *)
Theorem submit_dropped_iff_white_space (text effort model : string) (now : N)
    (s : State) :
  ascii_text text = true →
  (handleSubmit text effort model now s = s
   ↔ Forall (λ c, is_space c = true) (list_ascii_of_string text)) ∧
  (handleSubmit text effort model now s ≠ s →
   ∃ request,
     submitted (handleSubmit text effort model now s) = submitted s ++ [request] ∧
     r_messages request
     = messages s ++ [ {| m_type := "human"; m_content := text;
                          m_id := Some (pretty now) |} ]).
Proof.
  intros _. rewrite <- trim_blank.
  destruct (decide (trim text = "")) as [Hblank|Hfull].
  - assert (Hsame : handleSubmit text effort model now s = s).
    { unfold handleSubmit. by rewrite Hblank. }
    split; [by split|]. by intros [].
  - rewrite (handleSubmit_nonblank text effort model now s Hfull).
    split; [split; [|done]|].
    + intros Heq. apply (f_equal (λ st, length (submitted st))) in Heq.
      cbn in Heq. rewrite length_app in Heq. cbn in Heq. lia.
    + intros _. eexists. split; [done|]. done.
Qed.

Lemma submit_dropped_iff_white_space_witness :
  (handleSubmit " and the sea" "high" "model" 2%N initial = initial
   ↔ Forall (λ c, is_space c = true) (list_ascii_of_string " and the sea")) ∧
  (handleSubmit " and the sea" "high" "model" 2%N initial ≠ initial →
   ∃ request,
     submitted (handleSubmit " and the sea" "high" "model" 2%N initial)
     = submitted initial ++ [request] ∧
     r_messages request
     = messages initial ++ [ {| m_type := "human"; m_content := " and the sea";
                                m_id := Some (pretty 2%N) |} ]).
Proof.
  apply (submit_dropped_iff_white_space " and the sea" "high" "model" 2%N initial).
  reflexivity.
Defined.

End Submissions.

(* ===================================================================== *)
(** ** The request body of the mind map *)
(* ===================================================================== *)

Module Requests.
Import Js MindMapModal MindMapRequest.

Lemma length_substring (n : nat) (s : string) :
  String.length (substring 0 n s) = Nat.min n (String.length s).
Proof.
  revert s. induction n as [|n IH]; intros [|c s]; cbn; [done..|]. by rewrite IH.
Qed.

Lemma substring_prefix (n : nat) (s : string) :
  ∃ rest, s = substring 0 n s +:+ rest ∧ (String.length s ≤ n → rest = "")%nat.
Proof.
  revert s. induction n as [|n IH]; intros [|c s]; cbn.
  - by exists "".
  - exists (String c s). split; [done|]. lia.
  - by exists "".
  - destruct (IH s) as (rest & Hs & Hrest). exists rest.
    split; [change (String c s = String c (substring 0 n s +:+ rest)); by f_equal|].
    intros Hlen. apply Hrest. lia.
Qed.

Section Payload.

Variable stringify : JsValue → option string.

(** X22.  The request body holds one item per message of the history, in
    order, with the type of the message and the first 300 characters of its
    text (the content itself when it is a string, else what [JSON.stringify]
    makes of it): never more than 300 characters, and the whole text when it
    is no longer than that.  Building it throws exactly when the content of
    some message is not a string and [JSON.stringify] gives no text for it. *)
Theorem historyPayload_cuts_to_300 (chatHistory : list ChatMessage) :
  match historyPayload stringify chatHistory with
  | Some items =>
      Forall2 (λ msg item,
                 h_type item = c_type msg ∧
                 (String.length (h_content item) ≤ 300)%nat ∧
                 ∃ text rest,
                   (c_content msg = JStr text ∨
                    typeof_string (c_content msg) = false ∧
                    stringify (c_content msg) = Some text) ∧
                   text = h_content item +:+ rest ∧
                   (String.length text ≤ 300 → rest = "")%nat)
              chatHistory items
  | None =>
      ∃ msg, msg ∈ chatHistory ∧ typeof_string (c_content msg) = false ∧
             stringify (c_content msg) = None
  end.
Proof.
  unfold historyPayload.
  destruct (mapM (payload_item stringify) chatHistory) as [items|] eqn:Hm.
  - apply mapM_Some in Hm. eapply Forall2_impl; [exact Hm|].
    intros msg item Hitem. cbn beta in Hitem. unfold payload_item in Hitem.
    assert (Hcut : ∀ text,
              (String.length (substring 0 300 text) ≤ 300)%nat ∧
              ∃ rest, text = substring 0 300 text +:+ rest ∧
                      (String.length text ≤ 300 → rest = "")%nat).
    { intros text. split; [rewrite length_substring; lia|apply substring_prefix]. }
    destruct (typeof_string (c_content msg)) eqn:Htype.
    + injection Hitem as <-. cbn [h_type h_content].
      destruct (c_content msg) as [| | | |text| |]; try done. cbn [ActivityTimeline.text_of].
      destruct (Hcut text) as (Hlen & rest & Htext & Hrest).
      split; [done|]. split; [done|]. exists text, rest. split; [by left|done].
    + destruct (stringify (c_content msg)) as [text|] eqn:Hs; [|done].
      injection Hitem as <-. cbn [h_type h_content].
      destruct (Hcut text) as (Hlen & rest & Htext & Hrest).
      split; [done|]. split; [done|]. exists text, rest. split; [by right|done].
  - apply mapM_None, Exists_exists in Hm as (msg & Hin & Hnone).
    exists msg. split; [done|]. unfold payload_item in Hnone.
    destruct (typeof_string (c_content msg)); [done|]. split; [done|].
    by destruct (stringify (c_content msg)).
Qed.

End Payload.

End Requests.

(* ===================================================================== *)
(** ** From the stream to the screen *)
(* ===================================================================== *)

Module EndToEnd.
Import Js ActivityTimeline App TimelineScreen Spec Notions Classifier Grouping Screens.

(** What the classifier flags as a source list. *)
Lemma classify_sources (nodeName : string) (nodeEvent : JsValue)
    (entry : ProcessedEvent) (raised : bool) :
  classify nodeName nodeEvent = Some (entry, raised) →
  isSources entry = true →
  sectionType entry = "Searching" ∧ title entry = "Found Sources".
Proof.
  unfold classify.
  destruct (truthy nodeEvent && typeof_object nodeEvent
            && truthy (prop nodeEvent "type")); [|done].
  repeat match goal with
         | |- context [if ?b then _ else _] => destruct b
         end;
    intros [= <- _]; cbn [sectionType title isSources]; done.
Qed.

Lemma entries_Forall (P : ProcessedEvent → Prop) (event : list (string * JsValue)) :
  (∀ nodeName nodeEvent entry raised,
     classify nodeName nodeEvent = Some (entry, raised) → P entry) →
  Forall P (entries event).
Proof.
  intros HP. induction event as [|node event IH]; [constructor|].
  unfold entries. rewrite processTick_cons.
  destruct (classify node.1 node.2) as [[entry raised]|] eqn:Hc; [|exact IH].
  constructor; [by eapply HP|exact IH].
Qed.

(** What holds of every entry the classifier makes holds of every entry of
    the live timeline. *)
Lemma live_run_Forall (P : ProcessedEvent → Prop) (actions : list Action) (s : State) :
  (∀ nodeName nodeEvent entry raised,
     classify nodeName nodeEvent = Some (entry, raised) → P entry) →
  Forall P (live s) → Forall P (live (run s actions)).
Proof.
  intros HP. revert s. induction actions as [|a actions IH]; intros s Hs; simpl; [done|].
  apply IH. destruct a as [event|text effort model now|msgs loading|]; simpl.
  - rewrite live_onUpdateEvent. apply Forall_app. split; [done|by apply entries_Forall].
  - rewrite live_handleSubmit. by destruct (String.eqb (trim text) "").
  - exact Hs.
  - by rewrite live_archiveEffect.
Qed.

(** X23.  On the live timeline of the app the code of the component throws in
    one case only: the [Searching] section reads expanded and holds a
    [Found Sources] entry flagged as a source list whose list has a null or
    undefined element. *)
Theorem live_timeline_throws_iff (actions : list Action) (loading : bool)
    (es : gmap string bool) :
  renderTimeline (live (run initial actions)) loading es = None
  ↔ isExpanded es "Searching" = true ∧
    ∃ e sources x,
      e ∈ live (run initial actions) ∧
      sectionType e = "Searching" ∧ title e = "Found Sources" ∧ isSources e = true ∧
      data e = JArr sources ∧ x ∈ sources ∧ nullish x = true.
Proof.
  assert (Hlive : Forall (λ e, sectionType e ∈ categories ∧
                               (isSources e = true →
                                sectionType e = "Searching" ∧ title e = "Found Sources"))
                         (live (run initial actions))).
  { apply live_run_Forall; [|unfold live, initial, array_at; cbn; constructor].
    intros nodeName nodeEvent entry raised Hc.
    split; [by eapply classify_category|by eapply classify_sources]. }
  rewrite Forall_forall in Hlive.
  assert (Hred : groupedEvents (live (run initial actions))
                 = Some (grouping (live (run initial actions)))).
  { apply groupedEvents_grouping, Forall_forall. intros e He.
    destruct (Hlive e He) as [Hcat _].
    pose proof categories_plain as Hplain. rewrite Forall_forall in Hplain.
    by destruct (Hplain _ Hcat). }
  rewrite (renderTimeline_grouped _ loading es _ Hred). split.
  - intros (e & He & Hopen & Hnone).
    apply renderData_throws in Hnone as (Hflag & sources & Hdata & Hnone).
    apply mapM_None, Exists_exists in Hnone as (x & Hx & Hnull%render_source_None).
    destruct (Hlive e He) as [_ Hsrc]. destruct (Hsrc Hflag) as [Hsec Htitle].
    rewrite Hsec in Hopen. split; [done|]. by exists e, sources, x.
  - intros (Hopen & e & sources & x & He & Hsec & Htitle & Hflag & Hdata & Hx & Hnull).
    exists e. split; [done|]. rewrite Hsec. split; [done|].
    rewrite (renderData_sources e sources Hflag Hdata).
    apply fmap_None, mapM_None, Exists_exists.
    exists x. by rewrite render_source_None.
Qed.

End EndToEnd.
